(** * Investor matcher: the matching engine of [app.py]

    A shallow embedding of [parse_esg_tags], [match_projects_to_investor] and
    of two parts of [main]: the [INSERT OR REPLACE] statement on the table
    [project_notes] and the mask of the project explorer, with the
    properties of the engine stated and proved over it.

    Conventions of the embedding.
    - A Python [str] is a [string] of ASCII characters (code points below
      128).  [str.lower], [str.upper] and [str.strip] are written out for
      that range; a character code above 127 is left alone by the case maps
      and is not blank.
    - A Python [set] of strings is a [gset string]; a [list] is a [list].
    - A cell of a pandas row is a [value]: a [str], a number or [None].
    - An exception that leaves a function is the [Raise] branch of [result];
      the one call of [st.error] is recorded in the returned [outcome].
    - A Python [float] is its mathematical value ([pyfloat]); the two
      conversions between text and floats ([float] on a [str], [str] on a
      [float]) are parameters of the development. *)

From Stdlib Require Import ZArith QArith Ascii Sorted Permutation.
From stdpp Require Import base gmap sets list strings pretty.

Local Open Scope Z_scope.
Local Open Scope stdpp_scope.

(** ** Python characters and strings *)

Module Py.

(** [c.isspace()] on the ASCII range: tab, line feed, vertical tab, form
    feed, carriage return, the four separators 0x1c..0x1f and the space. *)
Definition isspace (c : ascii) : bool :=
  let n := N_of_ascii c in
  ((9 <=? n) && (n <=? 13) || (28 <=? n) && (n <=? 32))%N.

Definition isupper (c : ascii) : bool :=
  let n := N_of_ascii c in ((65 <=? n) && (n <=? 90))%N.

Definition islower (c : ascii) : bool :=
  let n := N_of_ascii c in ((97 <=? n) && (n <=? 122))%N.

Definition lower_char (c : ascii) : ascii :=
  if isupper c then ascii_of_N (N_of_ascii c + 32) else c.

Definition upper_char (c : ascii) : ascii :=
  if islower c then ascii_of_N (N_of_ascii c - 32) else c.

(** [s.lower()] and [s.upper()] *)
Fixpoint lower (s : string) : string :=
  match s with
  | EmptyString => EmptyString
  | String c s' => String (lower_char c) (lower s')
  end.

Fixpoint upper (s : string) : string :=
  match s with
  | EmptyString => EmptyString
  | String c s' => String (upper_char c) (upper s')
  end.

(** [s.lstrip()], [s.rstrip()] and [s.strip()] *)
Fixpoint lstrip (s : string) : string :=
  match s with
  | EmptyString => EmptyString
  | String c s' => if isspace c then lstrip s' else s
  end.

Fixpoint rstrip (s : string) : string :=
  match s with
  | EmptyString => EmptyString
  | String c s' =>
      match rstrip s' with
      | EmptyString => if isspace c then EmptyString else String c EmptyString
      | r => String c r
      end
  end.

Definition strip (s : string) : string := rstrip (lstrip s).

(** [s.startswith(p)] *)
Fixpoint startswith (p s : string) : bool :=
  match p, s with
  | EmptyString, _ => true
  | String a p', String b s' => if decide (a = b) then startswith p' s' else false
  | String _ _, EmptyString => false
  end.

(** [s.replace(old, new)] for a non-empty [old]: the occurrences of [old]
    are found from left to right and do not overlap.  [skip] counts the
    characters of an occurrence that are still to be passed over. *)
Fixpoint replace_go (old new : string) (skip : nat) (s : string) : string :=
  match s with
  | EmptyString => EmptyString
  | String c s' =>
      match skip with
      | S k => replace_go old new k s'
      | O =>
          if startswith old s
          then new +:+ replace_go old new (String.length old - 1) s'
          else String c (replace_go old new 0 s')
      end
  end.

Definition replace (old new s : string) : string := replace_go old new 0 s.

(** [s.split(sep)] for a separator of one character: always at least one
    field, and an empty field wherever two separators meet or the string
    starts or ends with one. *)
Fixpoint split (sep : ascii) (s : string) : list string :=
  match s with
  | EmptyString => [EmptyString]
  | String c s' =>
      if decide (c = sep) then EmptyString :: split sep s'
      else match split sep s' with
           | f :: fs => String c f :: fs
           | [] => [String c EmptyString]
           end
  end.

(** [c in s] for a character [c] *)
Fixpoint has_char (c : ascii) (s : string) : bool :=
  match s with
  | EmptyString => false
  | String d s' => bool_decide (c = d) || has_char c s'
  end.

(** [s.count(c)] for a character [c] *)
Fixpoint count_char (c : ascii) (s : string) : nat :=
  match s with
  | EmptyString => 0
  | String d s' => (if decide (c = d) then 1 else 0) + count_char c s'
  end.

(** [any(f(c) for c in s)] *)
Fixpoint any_char (f : ascii → bool) (s : string) : bool :=
  match s with
  | EmptyString => false
  | String c s' => f c || any_char f s'
  end.

(** [sep.join(l)] *)
Fixpoint join (sep : string) (l : list string) : string :=
  match l with
  | [] => EmptyString
  | [x] => x
  | x :: l' => x +:+ sep +:+ join sep l'
  end.

End Py.

(** ** Python values, floats and exceptions *)

(** A [float] by its value: not-a-number, the two infinities, or a
    rational (every finite double is one).  The two zeros are not told
    apart: they compare equal. *)
Inductive pyfloat : Type :=
  | FNaN
  | FNegInf
  | FFin (q : Q)
  | FPosInf.

(** The three-way comparison behind [<], [==] and [>=] on floats; a NaN is
    unordered with everything, itself included. *)
Definition fcompare (x y : pyfloat) : option comparison :=
  match x, y with
  | FNaN, _ | _, FNaN => None
  | FNegInf, FNegInf => Some Eq
  | FNegInf, _ => Some Lt
  | _, FNegInf => Some Gt
  | FPosInf, FPosInf => Some Eq
  | FPosInf, _ => Some Gt
  | _, FPosInf => Some Lt
  | FFin a, FFin b => Some (a ?= b)%Q
  end.

Definition float_lt (x y : pyfloat) : bool :=
  match fcompare x y with Some Lt => true | _ => false end.
Definition float_eq (x y : pyfloat) : bool :=
  match fcompare x y with Some Eq => true | _ => false end.
Definition float_ge (x y : pyfloat) : bool :=
  match fcompare x y with Some Gt | Some Eq => true | _ => false end.

(** A float that is not a NaN compares with every other such float. *)
Definition ordered (x : pyfloat) : Prop := x ≠ FNaN.

(** What a cell of a row read back from the store can hold. *)
Inductive value : Type :=
  | VStr (s : string)
  | VNum (x : pyfloat)
  | VNone.

Inductive exn : Type :=
  | ValueError
  | TypeError
  | AttributeError
  | IndexError.

Inductive result (A : Type) : Type :=
  | Ok (a : A)
  | Raise (e : exn).
Arguments Ok {A} a.
Arguments Raise {A} e.

Global Instance result_ret : MRet result := λ A a, Ok a.
Global Instance result_bind : MBind result := λ A B f r,
  match r with
  | Ok a => f a
  | Raise e => Raise e
  end.

Global Instance exn_eq_dec : EqDecision exn.
Proof. solve_decision. Defined.

(** ** Rows *)

(** A row of the table [investors], by the three columns the engine reads. *)
Record investor : Type := {
  sector_focus : value;
  min_investment_size : value;
  preferred_esg_criteria : value
}.

(** A row of the table [projects], by the columns the engine reads.  The
    column [readiness_level] may be absent from an uploaded table, which is
    what [p.get('readiness_level', 'Idea')] provides for. *)
Record project : Type := {
  name : value;
  sector : value;
  funding_needed : value;
  esg_tags : value;
  readiness_level : option value
}.

(** One dictionary appended to [matches]. *)
Record match_row : Type := {
  Project_Name : value;
  Sector : value;
  Funding_Needed : pyfloat;
  ESG_Score : nat;
  Readiness : value
}.

(** What a call that returns leaves behind: the messages handed to
    [st.error] and the rows of the returned [DataFrame] (an empty
    [pd.DataFrame()] has no rows). *)
Record outcome : Type := {
  st_errors : list string;
  frame : list match_row
}.

Definition invalid_min_investment : string :=
  "❌ Invalid value in 'min_investment_size'. Please check your investors.csv.".

(** ** [sorted(matches, key=...)] *)

(** The key [(-x['ESG Score'], x['Funding Needed'])]. *)
Definition sort_key (r : match_row) : Z * pyfloat :=
  (- Z.of_nat (ESG_Score r), Funding_Needed r).

(** [a < b] on such tuples: the first components that are not [==] decide. *)
Definition key_lt (a b : Z * pyfloat) : bool :=
  if decide (a.1 = b.1)
  then if float_eq a.2 b.2 then false else float_lt a.2 b.2
  else bool_decide (a.1 < b.1).

(** [sorted] is stable and asks only [<] of the keys.  It is written here as
    a stable insertion: an element goes in front of the first element of
    the sorted rest whose key is not smaller than its own.  On keys without
    a NaN every stable sort returns this list ([sorted_is_the_stable_sort]). *)
Fixpoint insert_sorted {A K} (lt : K → K → bool) (key : A → K) (x : A) (l : list A)
  : list A :=
  match l with
  | [] => [x]
  | y :: l' =>
      if lt (key y) (key x) then y :: insert_sorted lt key x l'
      else x :: l
  end.

Fixpoint sorted {A K} (lt : K → K → bool) (key : A → K) (l : list A) : list A :=
  match l with
  | [] => []
  | x :: l' => insert_sorted lt key x (sorted lt key l')
  end.

(** [x] may stand before [y] in a sorted list: the key of [y] is not
    smaller. *)
Definition not_after {A K} (lt : K → K → bool) (key : A → K) (x y : A) : Prop :=
  lt (key y) (key x) = false.

(** ** The engine *)

Section Engine.

(** [float(s)] on a [str]: the float that the text denotes, or nothing
    when Python raises [ValueError]. *)
Variable float_of_str : string → option pyfloat.
(** [str(x)] on a [float]. *)
Variable str_of_float : pyfloat → string.

(** [float(v)] *)
Definition py_float (v : value) : result pyfloat :=
  match v with
  | VNum x => Ok x
  | VStr s =>
      match float_of_str s with
      | Some x => Ok x
      | None => Raise ValueError
      end
  | VNone => Raise TypeError
  end.

(** [str(v)] *)
Definition py_str (v : value) : string :=
  match v with
  | VStr s => s
  | VNum x => str_of_float x
  | VNone => "None"
  end.

(** The receiver of a [str] method: anything else has no such attribute. *)
Definition as_str (v : value) : result string :=
  match v with
  | VStr s => Ok s
  | _ => Raise AttributeError
  end.

(** [parse_esg_tags] on a [str] *)
Definition parse_esg_tags_str (tags : string) : gset string :=
  list_to_set
    ((λ tag, Py.lower (Py.strip tag)) <$>
       Py.split "," (Py.replace "G:" "" (Py.replace "S:" "" (Py.replace "E:" "" tags)))).

(** [parse_esg_tags(tags)] *)
Definition parse_esg_tags (tags : value) : result (gset string) :=
  s ← as_str tags; mret (parse_esg_tags_str s).

(** [any(tag.strip()[0].upper() in selected_tags for tag in tokens)]: the
    tokens are tried from the left until one is selected; indexing an empty
    [tag.strip()] raises. *)
Fixpoint any_selected (selected_tags : list string) (tokens : list string)
  : result bool :=
  match tokens with
  | [] => Ok false
  | tag :: rest =>
      match Py.strip tag with
      | EmptyString => Raise IndexError
      | String c _ =>
          if bool_decide (Py.upper (String c EmptyString) ∈ selected_tags)
          then Ok true
          else any_selected selected_tags rest
      end
  end.

(** The body of the [for] loop, for one project [p]. *)
Definition visit (investor_sector : string) (min_investment : pyfloat)
    (preferred_esg : gset string) (selected_tags : list string)
    (matches : list match_row) (p : project) : result (list match_row) :=
  let sector_l := Py.lower (py_str (sector p)) in
  funding ← py_float (funding_needed p);
  tags ← parse_esg_tags (esg_tags p);
  let esg_score := size (preferred_esg ∩ tags) in
  if bool_decide (sector_l = investor_sector) && float_ge funding min_investment
     && bool_decide (0 < esg_score)%nat
  then
    raw ← as_str (esg_tags p);
    hit ← any_selected selected_tags (Py.split "," raw);
    if (hit : bool)
    then mret (matches ++ [{| Project_Name := name p;
                              Sector := sector p;
                              Funding_Needed := funding;
                              ESG_Score := esg_score;
                              Readiness := default (VStr "Idea") (readiness_level p) |}])
    else mret matches
  else mret matches.

(** The [for] loop over [projects_df.iterrows()]. *)
Fixpoint visit_all (investor_sector : string) (min_investment : pyfloat)
    (preferred_esg : gset string) (selected_tags : list string)
    (matches : list match_row) (projects_df : list project)
  : result (list match_row) :=
  match projects_df with
  | [] => Ok matches
  | p :: rest =>
      m ← visit investor_sector min_investment preferred_esg selected_tags matches p;
      visit_all investor_sector min_investment preferred_esg selected_tags m rest
  end.

(** The two locals computed from the investor before the loop. *)
Definition investor_sector (investor_row : investor) : string :=
  Py.lower (py_str (sector_focus investor_row)).

Definition preferred_esg (investor_row : investor) : gset string :=
  list_to_set (Py.split "," (Py.lower (py_str (preferred_esg_criteria investor_row)))).

Definition match_projects_to_investor (investor_row : investor)
    (projects_df : list project) (selected_tags : list string) : result outcome :=
  match py_float (min_investment_size investor_row) with
  | Raise ValueError =>
      Ok {| st_errors := [invalid_min_investment]; frame := [] |}
  | Raise e => Raise e
  | Ok min_investment =>
      matches ← visit_all (investor_sector investor_row) min_investment
                  (preferred_esg investor_row) selected_tags [] projects_df;
      Ok {| st_errors := [];
            frame := match matches with
                     | [] => []
                     | _ => sorted key_lt sort_key matches
                     end |}
  end.

(** *** The four conditions, in the words of the specification *)

(** (1) the sectors, lowercased, are equal. *)
Definition sector_equal (a : investor) (p : project) : bool :=
  bool_decide (Py.lower (py_str (sector p)) = Py.lower (py_str (sector_focus a))).

(** (2) the funding needed, as a number, reaches the investor's floor. *)
Definition funding_reaches_floor (a : investor) (p : project) : bool :=
  match py_float (funding_needed p), py_float (min_investment_size a) with
  | Ok f, Ok m => float_ge f m
  | _, _ => false
  end.

(** (3) the ESG score: how many preferred criteria are among the
    normalised tags; the condition is that it is positive. *)
Definition esg_score_of (a : investor) (p : project) : nat :=
  match parse_esg_tags (esg_tags p) with
  | Ok tags => size (preferred_esg a ∩ tags)
  | Raise _ => 0
  end.

Definition esg_overlap (a : investor) (p : project) : bool :=
  bool_decide (0 < esg_score_of a p)%nat.

(** (4), as the specification words it: some comma-separated token of the
    raw text has its own first character, uppercased, selected. *)
Definition leads_with_selected_raw (selected_tags : list string) (tag : string) : bool :=
  match tag with
  | EmptyString => false
  | String c _ => bool_decide (Py.upper (String c EmptyString) ∈ selected_tags)
  end.

Definition dimension_letter_raw (selected_tags : list string) (p : project) : bool :=
  match esg_tags p with
  | VStr raw => existsb (leads_with_selected_raw selected_tags) (Py.split "," raw)
  | _ => false
  end.

(** (4), on the trimmed token: some token, once stripped of surrounding
    blanks, starts with a character that, uppercased, is selected. *)
Definition leads_with_selected (selected_tags : list string) (tag : string) : bool :=
  leads_with_selected_raw selected_tags (Py.strip tag).

Definition dimension_letter (selected_tags : list string) (p : project) : bool :=
  match esg_tags p with
  | VStr raw => existsb (leads_with_selected selected_tags) (Py.split "," raw)
  | _ => false
  end.

(** A token that is empty once stripped. *)
Definition blank (tag : string) : bool :=
  bool_decide (Py.strip tag = EmptyString).

(** A project on which the body of the loop cannot raise: its funding
    converts, and its tag text is a [str] none of whose tokens is blank. *)
Definition well_formed (p : project) : Prop :=
  (∃ f, py_float (funding_needed p) = Ok f)
  ∧ ∃ raw, esg_tags p = VStr raw ∧ Forall (λ t, blank t = false) (Py.split "," raw).

(** A project that the loop can read up to the test of the three first
    conditions: its funding converts and its tag text is a [str]. *)
Definition readable (p : project) : Prop :=
  (∃ f, py_float (funding_needed p) = Ok f) ∧ ∃ raw, esg_tags p = VStr raw.

Definition qualifies_raw (a : investor) (selected_tags : list string) (p : project) : bool :=
  sector_equal a p && funding_reaches_floor a p && esg_overlap a p
  && dimension_letter_raw selected_tags p.

Definition qualifies (a : investor) (selected_tags : list string) (p : project) : bool :=
  sector_equal a p && funding_reaches_floor a p && esg_overlap a p
  && dimension_letter selected_tags p.

(** The match record of a project. *)
Definition row_of (a : investor) (p : project) : match_row :=
  {| Project_Name := name p;
     Sector := sector p;
     Funding_Needed := match py_float (funding_needed p) with
                       | Ok f => f
                       | Raise _ => FNaN
                       end;
     ESG_Score := esg_score_of a p;
     Readiness := default (VStr "Idea") (readiness_level p) |}.

(** The matches in the order in which the collection is walked. *)
Definition encounter_order (a : investor) (selected_tags : list string)
    (projects_df : list project) : list match_row :=
  row_of a <$> filter (λ p, qualifies a selected_tags p = true) projects_df.

End Engine.

(** *** The normaliser, in the words of the specification *)

(** Every occurrence of the two characters [a b] is taken out, wherever it
    stands. *)
Fixpoint remove_pair (a b : ascii) (s : string) : string :=
  match s with
  | String c (String d s' as t) =>
      if decide (c = a ∧ d = b) then remove_pair a b s'
      else String c (remove_pair a b t)
  | _ => s
  end.

(** Take out "E:", then "S:", then "G:"; split on commas; trim and
    lowercase every token; collect the tokens in a set. *)
Definition normalised_tags (s : string) : gset string :=
  let stripped := remove_pair "G" ":" (remove_pair "S" ":" (remove_pair "E" ":" s)) in
  list_to_set (Py.lower <$> (Py.strip <$> Py.split "," stripped)).

(** A token the normaliser has produced: it holds no comma and none of the
    letters of the three prefixes, and trimming and lowercasing leave it as
    it is. *)
Definition normal_token (t : string) : Prop :=
  Py.has_char "," t = false
  ∧ Py.has_char "E" t = false ∧ Py.has_char "S" t = false ∧ Py.has_char "G" t = false
  ∧ Py.lower (Py.strip t) = t.

(** *** The order of the ranking *)

Definition float_le (x y : pyfloat) : Prop := float_ge y x = true.

(** Higher score first; for equal scores, smaller funding first. *)
Definition ranked_before (r1 r2 : match_row) : Prop :=
  (ESG_Score r2 < ESG_Score r1)%nat
  ∨ (ESG_Score r1 = ESG_Score r2 ∧ float_le (Funding_Needed r1) (Funding_Needed r2)).

(** Same score and same funding. *)
Definition tied (score : nat) (funding : pyfloat) (r : match_row) : bool :=
  bool_decide (ESG_Score r = score) && float_eq (Funding_Needed r) funding.

(** ** The table [project_notes] *)

Module Notes.

(** A cell of a key column as [sqlite3] binds it: a [str] is a text, and
    [None] is NULL ([None] here). *)
Definition cell : Type := option string.

(** A row of [project_notes]; the flag is stored as [int(interested)]. *)
Record note_row : Type := {
  investor_name : cell;
  project_name : cell;
  interested : Z;
  notes : string
}.

Definition key_of (r : note_row) : cell * cell :=
  (investor_name r, project_name r).

(** [PRIMARY KEY (investor_name, project_name)] is declared without
    [NOT NULL], and SQLite then takes a NULL to be distinct from every
    value, NULL included: a row [x] of the table stands in the way of a new
    row [r] when the two agree on both columns and no column is NULL. *)
Definition conflicts (r x : note_row) : bool :=
  match investor_name r, project_name r with
  | Some _, Some _ => bool_decide (key_of x = key_of r)
  | _, _ => false
  end.

(** [INSERT OR REPLACE INTO project_notes VALUES (?, ?, ?, ?)]: the rows
    that would break the primary key are deleted, then the row is
    inserted.  The table is the sequence of its rows, in the order of
    insertion. *)
Definition insert_or_replace (r : note_row) (t : list note_row) : list note_row :=
  filter (λ x, conflicts r x = false) t ++ [r].

(** The statement as [main] binds it, for one displayed match. *)
Definition record_note (investor project : cell) (flag : bool) (text : string)
    (t : list note_row) : list note_row :=
  insert_or_replace
    {| investor_name := investor; project_name := project;
       interested := Z.b2z flag; notes := text |} t.

(** [a = b] in a [WHERE] clause: true of two equal texts only, never of a
    NULL. *)
Definition sql_eq (a b : cell) : bool :=
  match a, b with
  | Some x, Some y => bool_decide (x = y)
  | _, _ => false
  end.

(** [SELECT * FROM project_notes WHERE investor_name = ? AND project_name = ?] *)
Definition select_key (k : cell * cell) (t : list note_row) : list note_row :=
  filter (λ x, sql_eq (investor_name x) k.1 && sql_eq (project_name x) k.2 = true) t.

(** The rows that hold the pair [k] in their key columns, NULLs included. *)
Definition rows_of_key (k : cell * cell) (t : list note_row) : list note_row :=
  filter (λ x, key_of x = k) t.

(** The rows of every other pair. *)
Definition select_others (k : cell * cell) (t : list note_row) : list note_row :=
  filter (λ x, key_of x ≠ k) t.

End Notes.

(** ** The explorer of [main] *)

Module Explore.

(** The options of [st.multiselect("ESG tags", ["E", "S", "G"])]. *)
Inductive dimension : Type := Dim_E | Dim_S | Dim_G.

Definition letter (d : dimension) : ascii :=
  match d with
  | Dim_E => "E"
  | Dim_S => "S"
  | Dim_G => "G"
  end%char.

(** The same selection as the strings that the matcher is given. *)
Definition as_selected_tags (selected : list dimension) : list string :=
  (λ d, String (letter d) EmptyString) <$> selected.

(** [tags.str.contains("|".join(selected), case=False)] on a text cell:
    the pattern is an alternation of the selected letters, searched for
    anywhere in the text without regard to case; with nothing selected the
    pattern is empty and is found in every text. *)
Definition contains (selected : list dimension) (tags : string) : bool :=
  match selected with
  | [] => true
  | _ => Py.any_char
           (λ c, bool_decide (Py.lower_char c ∈ (λ d, Py.lower_char (letter d)) <$> selected))
           tags
  end.

(** [funding.between(lo, hi)] on a numeric cell, for the two integers of
    the slider: both ends count, and a NaN is outside every range. *)
Definition between (lo hi : Z) (x : pyfloat) : bool :=
  float_ge x (FFin (inject_Z lo)) && float_ge (FFin (inject_Z hi)) x.

(** [(sector == selected_sector) if selected_sector != "All" else True] *)
Definition sector_shown (selected_sector sector : string) : bool :=
  if decide (selected_sector = "All") then true
  else bool_decide (sector = selected_sector).

(** The mask of one row, from its funding, tag text and sector. *)
Definition mask (lo hi : Z) (selected : list dimension) (selected_sector : string)
    (funding : pyfloat) (tags sector : string) : bool :=
  between lo hi funding && contains selected tags && sector_shown selected_sector sector.

End Explore.

(** ** Data for the closed examples *)

Module Demo.

(** Closed examples need the two conversions at some value.  This instance
    covers what the examples hold: [float] of an unsigned decimal integer
    literal (any other text is rejected, as the text "abc" is by Python),
    and [str] of a whole number. *)
Definition digit_of (c : ascii) : option Z :=
  let n := N_of_ascii c in
  if ((48 <=? n) && (n <=? 57))%N then Some (Z.of_N n - 48) else None.

Fixpoint digits_value (acc : Z) (s : string) : option Z :=
  match s with
  | EmptyString => Some acc
  | String c s' =>
      match digit_of c with
      | Some d => digits_value (10 * acc + d) s'
      | None => None
      end
  end.

Definition float_of_str (s : string) : option pyfloat :=
  match Py.strip s with
  | EmptyString => None
  | t => (λ z, FFin (inject_Z z)) <$> digits_value 0 t
  end.

Definition str_of_float (x : pyfloat) : string :=
  match x with
  | FNaN => "nan"
  | FNegInf => "-inf"
  | FPosInf => "inf"
  | FFin q => pretty (Qnum q) +:+ ".0"
  end.

Definition num (z : Z) : value := VNum (FFin (inject_Z z)).

(** The investor and the two projects of the specification's example. *)
Definition investor_1 : investor :=
  {| sector_focus := VStr "energy";
     min_investment_size := num 10000;
     preferred_esg_criteria := VStr "green,solar" |}.

Definition project_A : project :=
  {| name := VStr "A"; sector := VStr "energy"; funding_needed := num 15000;
     esg_tags := VStr "E:green,S:jobs"; readiness_level := None |}.

Definition project_B : project :=
  {| name := VStr "B"; sector := VStr "energy"; funding_needed := num 8000;
     esg_tags := VStr "E:solar"; readiness_level := None |}.

Definition row_A : match_row :=
  {| Project_Name := VStr "A"; Sector := VStr "energy";
     Funding_Needed := FFin (inject_Z 15000); ESG_Score := 1;
     Readiness := VStr "Idea" |}.

(** A project whose one tag is written after a blank. *)
Definition project_L : project :=
  {| name := VStr "L"; sector := VStr "energy"; funding_needed := num 20000;
     esg_tags := VStr " E:green"; readiness_level := Some (VStr "Piloted") |}.

Definition row_L : match_row :=
  {| Project_Name := VStr "L"; Sector := VStr "energy";
     Funding_Needed := FFin (inject_Z 20000); ESG_Score := 1;
     Readiness := VStr "Piloted" |}.

(** A project whose tags carry no prefix and end with a comma. *)
Definition project_T : project :=
  {| name := VStr "T"; sector := VStr "energy"; funding_needed := num 30000;
     esg_tags := VStr "renewable,"; readiness_level := None |}.


(** An investor whose minimum is missing from the table. *)
Definition investor_missing : investor :=
  {| sector_focus := VStr "energy";
     min_investment_size := VNone;
     preferred_esg_criteria := VStr "green" |}.

(** An investor whose minimum is a text that is no number. *)
Definition investor_text : investor :=
  {| sector_focus := VStr "energy";
     min_investment_size := VStr "abc";
     preferred_esg_criteria := VStr "green" |}.

(** A project whose funding is a text that is no number. *)
Definition project_N : project :=
  {| name := VStr "N"; sector := VStr "water"; funding_needed := VStr "abc";
     esg_tags := VStr "S:wells"; readiness_level := None |}.

(** Three projects of one score, two of them of one funding. *)
Definition project_C : project :=
  {| name := VStr "C"; sector := VStr "energy"; funding_needed := num 15000;
     esg_tags := VStr "E:green"; readiness_level := None |}.

Definition project_D : project :=
  {| name := VStr "D"; sector := VStr "ENERGY"; funding_needed := num 12000;
     esg_tags := VStr "E:green, E:solar"; readiness_level := None |}.

Definition row_C : match_row :=
  {| Project_Name := VStr "C"; Sector := VStr "energy";
     Funding_Needed := FFin (inject_Z 15000); ESG_Score := 1;
     Readiness := VStr "Idea" |}.

Definition row_D : match_row :=
  {| Project_Name := VStr "D"; Sector := VStr "ENERGY";
     Funding_Needed := FFin (inject_Z 12000); ESG_Score := 2;
     Readiness := VStr "Idea" |}.

(** An investor with no criterion and a project with no tag: the one empty
    token on either side is shared. *)
Definition investor_3 : investor :=
  {| sector_focus := VStr "energy";
     min_investment_size := num 0;
     preferred_esg_criteria := VStr "" |}.

Definition project_E : project :=
  {| name := VStr "E"; sector := VStr "energy"; funding_needed := num 1;
     esg_tags := VStr ""; readiness_level := None |}.



Definition run := match_projects_to_investor float_of_str str_of_float.

End Demo.

(** * Properties *)

(** ** Characters *)

Ltac each_char c := destruct c as [[] [] [] [] [] [] [] []].

Lemma lower_char_idem c : Py.lower_char (Py.lower_char c) = Py.lower_char c.
Proof. each_char c; reflexivity. Qed.

Lemma lower_char_not_upper c : Py.isupper (Py.lower_char c) = false.
Proof. each_char c; reflexivity. Qed.

Lemma lower_char_space c : Py.isspace (Py.lower_char c) = Py.isspace c.
Proof. each_char c; reflexivity. Qed.

Lemma lower_char_comma c : Py.lower_char c = ","%char → c = ","%char.
Proof. each_char c; vm_compute; congruence. Qed.

Lemma upper_not_lowered (a : ascii) (s : string) :
  Py.isupper a = true → Py.has_char a (Py.lower s) = false.
Proof.
  intros Ha. induction s as [|c s IH]; simpl; [done|].
  rewrite IH, orb_false_r. apply bool_decide_eq_false. intros ->.
  by rewrite lower_char_not_upper in Ha.
Qed.

(** ** Strings *)

Lemma lower_idem s : Py.lower (Py.lower s) = Py.lower s.
Proof. induction s as [|c s IH]; simpl; [done|]. by rewrite lower_char_idem, IH. Qed.

Lemma lstrip_lower s : Py.lstrip (Py.lower s) = Py.lower (Py.lstrip s).
Proof.
  induction s as [|c s IH]; simpl; [done|].
  rewrite lower_char_space. by destruct (Py.isspace c).
Qed.

Lemma rstrip_lower s : Py.rstrip (Py.lower s) = Py.lower (Py.rstrip s).
Proof.
  induction s as [|c s IH]; simpl; [done|].
  rewrite IH, lower_char_space.
  destruct (Py.rstrip s); simpl; [by destruct (Py.isspace c)|done].
Qed.

Lemma strip_lower s : Py.strip (Py.lower s) = Py.lower (Py.strip s).
Proof. unfold Py.strip. by rewrite lstrip_lower, rstrip_lower. Qed.

Lemma rstrip_idem s : Py.rstrip (Py.rstrip s) = Py.rstrip s.
Proof.
  induction s as [|c s IH]; simpl; [done|].
  destruct (Py.rstrip s) as [|d r] eqn:E.
  - destruct (Py.isspace c) eqn:Ec; simpl; [done|]. by rewrite Ec.
  - simpl in *. by rewrite IH.
Qed.

(** What [rstrip] returns starts as its argument does, unless it is empty. *)
Lemma rstrip_head c s :
  Py.isspace c = false → ∃ r, Py.rstrip (String c s) = String c r.
Proof.
  intros Hc. simpl. destruct (Py.rstrip s); [rewrite Hc|]; eauto.
Qed.

Lemma lstrip_head s : Py.lstrip s = EmptyString ∨
  ∃ c r, Py.lstrip s = String c r ∧ Py.isspace c = false.
Proof.
  induction s as [|c s IH]; simpl; [by left|].
  destruct (Py.isspace c) eqn:E; [done|]. right; eauto.
Qed.

Lemma lstrip_fixed c r : Py.isspace c = false → Py.lstrip (String c r) = String c r.
Proof. intros H. simpl. by rewrite H. Qed.

Lemma strip_idem s : Py.strip (Py.strip s) = Py.strip s.
Proof.
  unfold Py.strip. destruct (lstrip_head s) as [->|(c & r & -> & Hc)]; [done|].
  destruct (rstrip_head c r Hc) as [r' E]. rewrite E, lstrip_fixed by done.
  rewrite <- E. apply rstrip_idem.
Qed.

(** *** Characters that a string does not hold *)

Lemma has_char_lower_comma s :
  Py.has_char "," s = false → Py.has_char "," (Py.lower s) = false.
Proof.
  induction s as [|c s IH]; simpl; [done|].
  intros [Hc Hs]%orb_false_elim. rewrite IH, orb_false_r by done.
  apply bool_decide_eq_false. intros E. symmetry in E.
  apply lower_char_comma in E. subst c. by rewrite bool_decide_eq_true_2 in Hc.
Qed.

Lemma has_char_lstrip a s : Py.has_char a s = false → Py.has_char a (Py.lstrip s) = false.
Proof.
  induction s as [|c s IH]; simpl; [done|].
  intros H. destruct (Py.isspace c); [|done].
  apply orb_false_elim in H as [_ H]. auto.
Qed.

Lemma has_char_rstrip a s : Py.has_char a s = false → Py.has_char a (Py.rstrip s) = false.
Proof.
  induction s as [|c s IH]; simpl; [done|].
  intros [Hc Hs]%orb_false_elim. specialize (IH Hs).
  destruct (Py.rstrip s); simpl in *.
  - destruct (Py.isspace c); simpl; [done|]. by rewrite Hc.
  - by rewrite Hc, IH.
Qed.

Lemma has_char_strip a s : Py.has_char a s = false → Py.has_char a (Py.strip s) = false.
Proof. intros H. by apply has_char_rstrip, has_char_lstrip. Qed.

Lemma has_char_app a s t :
  Py.has_char a (s +:+ t) = Py.has_char a s || Py.has_char a t.
Proof. induction s as [|c s IH]; simpl; [done|]. by rewrite IH, orb_assoc. Qed.

(** *** Splitting and joining *)

Lemma split_not_nil sep s : Py.split sep s ≠ [].
Proof.
  destruct s as [|c s]; simpl; [done|].
  destruct (decide (c = sep)); [done|]. by destruct (Py.split sep s).
Qed.

Lemma split_fields_free sep s :
  Forall (λ t, Py.has_char sep t = false) (Py.split sep s).
Proof.
  induction s as [|c s IH]; simpl; [by repeat constructor|].
  destruct (decide (c = sep)) as [->|Hne]; [by constructor|].
  destruct (Py.split sep s) as [|f fs]; simpl.
  - repeat constructor. simpl. rewrite orb_false_r.
    apply bool_decide_eq_false. congruence.
  - inversion IH as [|? ? Hf Hfs]; subst. constructor; [|done].
    simpl. rewrite Hf, orb_false_r. apply bool_decide_eq_false. congruence.
Qed.

Lemma split_free sep s : Py.has_char sep s = false → Py.split sep s = [s].
Proof.
  induction s as [|c s IH]; simpl; [done|].
  intros [Hc Hs]%orb_false_elim. apply bool_decide_eq_false in Hc.
  destruct (decide (c = sep)); [congruence|]. by rewrite IH.
Qed.

Lemma split_app sep s t :
  Py.has_char sep s = false →
  Py.split sep (s +:+ String sep t) = s :: Py.split sep t.
Proof.
  induction s as [|c s IH]; simpl.
  - intros _. unfold String.app; simpl. by rewrite decide_True.
  - intros [Hc Hs]%orb_false_elim. apply bool_decide_eq_false in Hc.
    change (String c s +:+ String sep t) with (String c (s +:+ String sep t)).
    simpl. destruct (decide (c = sep)); [congruence|]. by rewrite IH.
Qed.

Lemma split_join sep l :
  l ≠ [] → Forall (λ t, Py.has_char sep t = false) l →
  Py.split sep (Py.join (String sep EmptyString) l) = l.
Proof.
  induction l as [|x l IH]; [done|]. intros _ Hall.
  inversion Hall as [|? ? Hx Hl]; subst.
  destruct l as [|y l]; simpl.
  - by apply split_free.
  - change (String sep EmptyString +:+ ?r) with (String sep r).
    rewrite split_app by done. f_equal. by apply IH.
Qed.

Lemma has_char_join a sep l :
  Py.has_char a sep = false → Forall (λ t, Py.has_char a t = false) l →
  Py.has_char a (Py.join sep l) = false.
Proof.
  intros Hsep. induction l as [|x l IH]; [done|].
  intros Hall. inversion Hall as [|? ? Hx Hl]; subst.
  destruct l as [|y l]; [done|].
  change (Py.join sep (x :: y :: l)) with (x +:+ sep +:+ Py.join sep (y :: l)).
  rewrite !has_char_app, Hx, Hsep, IH; done.
Qed.

(** *** Replacing *)

Lemma startswith_absent a old s :
  Py.has_char a s = false → Py.startswith (String a old) s = false.
Proof.
  destruct s as [|c s]; simpl; [done|].
  intros [Hc _]%orb_false_elim. apply bool_decide_eq_false in Hc.
  by rewrite decide_False.
Qed.

(** A pattern whose first character the string does not hold is not found. *)
Lemma replace_absent a old new s :
  Py.has_char a s = false → Py.replace (String a old) new s = s.
Proof.
  unfold Py.replace. induction s as [|c s IH]; [done|].
  intros H. cbn [Py.replace_go]. rewrite startswith_absent by done.
  simpl in H. apply orb_false_elim in H as [_ H]. by rewrite IH.
Qed.

Lemma replace_go_here old new c s :
  Py.replace_go old new 0 (String c s) =
  if Py.startswith old (String c s)
  then new +:+ Py.replace_go old new (String.length old - 1) s
  else String c (Py.replace_go old new 0 s).
Proof. reflexivity. Qed.

Lemma remove_pair_two a b c d s :
  remove_pair a b (String c (String d s)) =
  if decide (c = a ∧ d = b) then remove_pair a b s
  else String c (remove_pair a b (String d s)).
Proof. reflexivity. Qed.

Lemma startswith_pair a b c d s :
  Py.startswith (String a (String b EmptyString)) (String c (String d s))
  = bool_decide (c = a ∧ d = b).
Proof.
  simpl. destruct (decide (a = c)) as [->|?]; [destruct (decide (b = d)) as [->|?]|].
  - by rewrite bool_decide_eq_true_2.
  - rewrite bool_decide_eq_false_2; [done|]. intros [_ ?]; congruence.
  - rewrite bool_decide_eq_false_2; [done|]. intros [? _]; congruence.
Qed.

(** Replacing a pair of characters by nothing takes every occurrence out. *)
Lemma replace_pair_go a b s :
  Py.replace_go (String a (String b EmptyString)) EmptyString 0 s = remove_pair a b s
  ∧ ∀ c, Py.replace_go (String a (String b EmptyString)) EmptyString 0 (String c s)
         = remove_pair a b (String c s).
Proof.
  induction s as [|d s [IH1 IH2]].
  - split; [done|]. intros c. simpl. by destruct (decide (a = c)).
  - split; [apply IH2|]. intros c.
    rewrite replace_go_here, remove_pair_two, startswith_pair.
    destruct (decide (c = a ∧ d = b)) as [E|E].
    + rewrite bool_decide_eq_true_2 by done. apply IH1.
    + rewrite bool_decide_eq_false_2 by done. f_equal. apply IH2.
Qed.

Lemma replace_pair a b s :
  Py.replace (String a (String b EmptyString)) EmptyString s = remove_pair a b s.
Proof. apply replace_pair_go. Qed.

(** ** The ESG tag normaliser *)

Lemma parse_esg_tags_ok s : parse_esg_tags (VStr s) = Ok (parse_esg_tags_str s).
Proof. reflexivity. Qed.

Lemma parse_esg_tags_str_spec s : parse_esg_tags_str s = normalised_tags s.
Proof.
  unfold parse_esg_tags_str, normalised_tags.
  change "E:" with (String "E" (String ":" EmptyString)).
  change "S:" with (String "S" (String ":" EmptyString)).
  change "G:" with (String "G" (String ":" EmptyString)).
  by rewrite !replace_pair, <- list_fmap_compose.
Qed.

(** C3: on every string, [parse_esg_tags] returns (it raises nothing) the
    set obtained by taking out every "E:", then every "S:", then every "G:",
    wherever they stand, splitting on commas, trimming and lowercasing each
    token.  A prefix in the interior of a tag goes too, and the empty string
    gives the set whose one element is the empty token. *)
Theorem parse_esg_tags_normalises :
  (∀ s, parse_esg_tags (VStr s) = Ok (normalised_tags s))
  ∧ parse_esg_tags (VStr "solarE:panel, S:Jobs ") = Ok {[ "solarpanel"; "jobs" ]}
  ∧ parse_esg_tags (VStr "") = Ok {[ "" ]}.
Proof.
  split; [|split].
  - intros s. by rewrite parse_esg_tags_ok, parse_esg_tags_str_spec.
  - by vm_compute.
  - by vm_compute.
Qed.

Lemma parse_esg_tags_str_normal s t : t ∈ parse_esg_tags_str s → normal_token t.
Proof.
  unfold parse_esg_tags_str. rewrite elem_of_list_to_set, list_elem_of_fmap.
  intros (u & -> & Hu).
  assert (Py.has_char "," u = false) as Hfree.
  { exact (proj1 (Forall_forall _ _) (split_fields_free _ _) u Hu). }
  clear Hu.
  repeat split.
  - by apply has_char_lower_comma, has_char_strip.
  - by apply upper_not_lowered.
  - by apply upper_not_lowered.
  - by apply upper_not_lowered.
  - by rewrite strip_lower, strip_idem, lower_idem.
Qed.

Lemma parse_esg_tags_str_join l :
  l ≠ [] → Forall normal_token l →
  parse_esg_tags_str (Py.join "," l) = list_to_set l.
Proof.
  intros Hne Hall. unfold parse_esg_tags_str.
  assert (∀ a, a ≠ ","%char → Forall (λ t, Py.has_char a t = false) l →
               Py.has_char a (Py.join "," l) = false) as Habs.
  { intros a Ha Hl. apply has_char_join; [|done]. simpl.
    rewrite orb_false_r. by apply bool_decide_eq_false. }
  change "E:" with (String "E" ":"). change "S:" with (String "S" ":").
  change "G:" with (String "G" ":").
  rewrite (replace_absent "E") by
    (apply Habs; [done|]; eapply Forall_impl; [exact Hall|]; by intros ? (_&?&_)).
  rewrite (replace_absent "S") by
    (apply Habs; [done|]; eapply Forall_impl; [exact Hall|]; by intros ? (_&_&?&_)).
  rewrite (replace_absent "G") by
    (apply Habs; [done|]; eapply Forall_impl; [exact Hall|]; by intros ? (_&_&_&?&_)).
  rewrite (split_join ","%char);
    [|done|by eapply Forall_impl; [exact Hall|]; intros ? (?&_)].
  f_equal. rewrite <- (list_fmap_id l) at 2. apply Forall_fmap_ext.
  eapply Forall_impl; [exact Hall|]. by intros ? (_&_&_&_&?).
Qed.

Lemma parse_esg_tags_str_enumerated s l :
  list_to_set l = parse_esg_tags_str s →
  parse_esg_tags_str (Py.join "," l) = parse_esg_tags_str s.
Proof.
  intros Hl.
  assert (Forall normal_token l) as Hall.
  { apply Forall_forall. intros t Ht. apply (parse_esg_tags_str_normal s).
    rewrite <- Hl. by apply elem_of_list_to_set. }
  assert (l ≠ []) as Hne.
  { intros ->. simpl in Hl. unfold parse_esg_tags_str in Hl.
    pose proof (split_not_nil ","
      (Py.replace "G:" "" (Py.replace "S:" "" (Py.replace "E:" "" s)))) as Hs.
    destruct (Py.split _ _) as [|u us]; [done|].
    assert (Py.lower (Py.strip u) ∈ (∅ : gset string)) as Hin; [|set_solver].
    rewrite Hl. set_solver. }
  by rewrite parse_esg_tags_str_join.
Qed.

(** The enumeration that [elements] gives is one such list. *)
Lemma parse_esg_tags_str_elements s :
  parse_esg_tags_str (Py.join "," (elements (parse_esg_tags_str s)))
  = parse_esg_tags_str s.
Proof. apply parse_esg_tags_str_enumerated, list_to_set_elements_L. Qed.

(** C8: normalising is idempotent.  Whatever the raw string [s], and
    whatever list [l] enumerates the set [parse_esg_tags(s)], parsing the
    comma-joined [l] returns that same set. *)
Theorem parse_esg_tags_idempotent (s : string) (l : list string) (tags : gset string) :
  parse_esg_tags (VStr s) = Ok tags →
  list_to_set l = tags →
  parse_esg_tags (VStr (Py.join "," l)) = Ok tags.
Proof.
  rewrite !parse_esg_tags_ok. intros [= <-] Hl. f_equal.
  by apply parse_esg_tags_str_enumerated.
Qed.

Lemma parse_esg_tags_idempotent_witness :
  parse_esg_tags (VStr (Py.join "," ["jobs"; "green"; ""]))
  = Ok {[ "green"; "jobs"; "" ]}.
Proof.
  apply (parse_esg_tags_idempotent " E:Green,S:jobs ,,green").
  - by vm_compute.
  - by vm_compute.
Defined.

(** ** Floats and sort keys *)

Lemma float_ge_ordered x y : float_ge x y = true → ordered x ∧ ordered y.
Proof. by destruct x, y. Qed.

Lemma float_lt_asym x y : float_lt x y = true → float_lt y x = false.
Proof.
  destruct x as [| |a|], y as [| |b|]; try done.
  unfold float_lt; cbn [fcompare]. rewrite <- (Qcompare_antisym a b).
  by destruct (a ?= b)%Q.
Qed.

Lemma Qcompare_not_lt_le (a b : Q) : (b ?= a)%Q ≠ Lt → (a <= b)%Q.
Proof.
  intros H. apply Qle_alt. rewrite <- (Qcompare_antisym b a).
  by destruct (b ?= a)%Q.
Qed.

Lemma float_le_trans x y z :
  ordered y →
  float_lt y x = false → float_lt z y = false → float_lt z x = false.
Proof.
  intros Hy. destruct x as [| |a|], y as [| |b|], z as [| |c|]; try done.
  unfold float_lt; cbn [fcompare]. intros Hba Hcb.
  assert (a <= b)%Q as H1.
  { apply Qcompare_not_lt_le. by destruct (b ?= a)%Q. }
  assert (b <= c)%Q as H2.
  { apply Qcompare_not_lt_le. by destruct (c ?= b)%Q. }
  destruct (c ?= a)%Q eqn:E; try done.
  apply (proj2 (Qlt_alt c a)) in E. exfalso.
  apply (Qlt_not_le _ _ E). by apply (Qle_trans _ b).
Qed.

Lemma float_eq_not_lt x y f :
  float_eq x f = true → float_eq y f = true → float_lt y x = false.
Proof.
  destruct x as [| |a|], y as [| |b|], f as [| |c|]; try done.
  unfold float_eq, float_lt; cbn [fcompare]. intros Hx Hy.
  destruct (a ?= c)%Q eqn:E1; try done. destruct (b ?= c)%Q eqn:E2; try done.
  apply (proj2 (Qeq_alt a c)) in E1. apply (proj2 (Qeq_alt b c)) in E2.
  destruct (b ?= a)%Q eqn:E; try done.
  apply (proj2 (Qlt_alt b a)) in E. rewrite E1, E2 in E. by apply Qlt_irrefl in E.
Qed.

Lemma float_not_lt_ge x y :
  ordered x → ordered y → float_lt y x = false → float_ge y x = true.
Proof.
  destruct x as [| |a|], y as [| |b|]; try done.
  unfold float_lt, float_ge; cbn [fcompare]. by destruct (b ?= a)%Q.
Qed.

Lemma float_eq_refl x : ordered x → float_eq x x = true.
Proof.
  destruct x as [| |a|]; try done. intros _.
  unfold float_eq; cbn [fcompare].
  by rewrite (proj1 (Qeq_alt a a) (Qeq_refl a)).
Qed.

Lemma float_not_lt_eq x y :
  ordered x → ordered y →
  float_lt x y = false → float_lt y x = false → float_eq y x = true.
Proof.
  destruct x as [| |a|], y as [| |b|]; try done.
  unfold float_lt, float_eq; cbn [fcompare]. intros _ _.
  rewrite <- (Qcompare_antisym b a). by destruct (b ?= a)%Q.
Qed.

(** With the equality test folded in, [key_lt] is the lexicographic order. *)
Lemma key_lt_alt a b :
  key_lt a b = if decide (a.1 = b.1) then float_lt a.2 b.2 else bool_decide (a.1 < b.1).
Proof.
  unfold key_lt. destruct (decide (a.1 = b.1)); [|done].
  destruct (float_eq a.2 b.2) eqn:E; [|done].
  unfold float_eq, float_lt in *. by destruct (fcompare a.2 b.2) as [[]|].
Qed.

Lemma key_lt_asym a b : key_lt a b = true → key_lt b a = false.
Proof.
  rewrite !key_lt_alt. destruct (decide (a.1 = b.1)) as [E|E].
  - rewrite decide_True by done. apply float_lt_asym.
  - rewrite decide_False by done. intros H%bool_decide_eq_true.
    apply bool_decide_eq_false. lia.
Qed.

Lemma key_le_trans a b c :
  ordered b.2 →
  key_lt b a = false → key_lt c b = false → key_lt c a = false.
Proof.
  intros Hb. rewrite !key_lt_alt.
  destruct (decide (b.1 = a.1)) as [E1|E1], (decide (c.1 = b.1)) as [E2|E2].
  - rewrite decide_True by congruence. by apply float_le_trans.
  - rewrite decide_False by congruence. rewrite E1. done.
  - rewrite decide_False by congruence. rewrite E2. done.
  - intros H1%bool_decide_eq_false H2%bool_decide_eq_false.
    rewrite decide_False by lia. apply bool_decide_eq_false. lia.
Qed.

(** ** [sorted] sorts, permutes and is stable *)

Section Sorting.
Context {A K : Type} (lt : K → K → bool) (key : A → K) (good : K → Prop).
Hypothesis lt_asym : ∀ a b, lt a b = true → lt b a = false.
Hypothesis le_trans : ∀ a b c, good b →
  lt b a = false → lt c b = false → lt c a = false.

Lemma insert_sorted_perm x l : insert_sorted lt key x l ≡ₚ x :: l.
Proof.
  induction l as [|y l IH]; simpl; [done|].
  destruct (lt (key y) (key x)); [|done].
  rewrite IH. apply Permutation_swap.
Qed.

Lemma sorted_perm l : sorted lt key l ≡ₚ l.
Proof.
  induction l as [|x l IH]; simpl; [done|].
  by rewrite insert_sorted_perm, IH.
Qed.

Lemma insert_sorted_ok x l :
  Forall (λ y, good (key y)) l →
  StronglySorted (not_after lt key) l →
  StronglySorted (not_after lt key) (insert_sorted lt key x l).
Proof.
  induction l as [|y l IH]; simpl; intros Hg Hs.
  - repeat constructor.
  - inversion Hs as [|? ? Hs' Hy]; subst. inversion Hg as [|? ? Hgy Hgl]; subst.
    destruct (lt (key y) (key x)) eqn:E.
    + constructor; [by apply IH|].
      rewrite insert_sorted_perm. constructor; [|done].
      by apply lt_asym.
    + constructor; [done|]. constructor; [done|].
      eapply Forall_impl; [exact Hy|]. intros z Hz.
      by apply (le_trans _ (key y)).
Qed.

Lemma sorted_ok l :
  Forall (λ y, good (key y)) l → StronglySorted (not_after lt key) (sorted lt key l).
Proof.
  induction l as [|x l IH]; simpl; intros Hg; [constructor|].
  inversion Hg; subst. apply insert_sorted_ok; [|by apply IH].
  by rewrite sorted_perm.
Qed.

(** Stability: the elements of a class of equal keys keep their order. *)
Section Stable.
Context (P : A → Prop) `{!∀ x, Decision (P x)}.
Hypothesis class : ∀ x y, P x → P y → lt (key y) (key x) = false.

Lemma insert_sorted_stable x l :
  filter P (insert_sorted lt key x l) = filter P (x :: l).
Proof.
  induction l as [|y l IH]; simpl; [done|].
  destruct (lt (key y) (key x)) eqn:E; [|done].
  rewrite !filter_cons in *.
  destruct (decide (P y)) as [Hy|Hy], (decide (P x)) as [Hx|Hx];
    rewrite IH; try done.
  by rewrite class in E.
Qed.

Lemma sorted_stable l : filter P (sorted lt key l) = filter P l.
Proof.
  induction l as [|x l IH]; simpl; [done|].
  by rewrite insert_sorted_stable, !filter_cons, IH.
Qed.
End Stable.
End Sorting.

(** *** A stable sort has one result *)

Lemma key_lt_irrefl k : key_lt k k = false.
Proof.
  destruct (key_lt k k) eqn:E; [|done]. by rewrite (key_lt_asym k k E) in E.
Qed.

(** Two rows neither of which must stand after the other are tied. *)
Lemma not_after_both_tied x y :
  ordered (Funding_Needed x) → ordered (Funding_Needed y) →
  not_after key_lt sort_key x y → not_after key_lt sort_key y x →
  tied (ESG_Score x) (Funding_Needed x) y = true.
Proof.
  intros Hx Hy. unfold not_after, tied. rewrite !key_lt_alt. unfold sort_key; simpl.
  destruct (decide (- Z.of_nat (ESG_Score y) = - Z.of_nat (ESG_Score x))) as [E|E].
  - rewrite decide_True by lia. intros H1 H2.
    rewrite bool_decide_eq_true_2 by lia. by apply float_not_lt_eq.
  - rewrite decide_False by lia.
    intros H1%bool_decide_eq_false H2%bool_decide_eq_false. lia.
Qed.

(** Two sorted arrangements of the same rows that keep every class of
    tied rows in the same order are the same list. *)
Lemma stable_sorted_unique (l1 l2 : list match_row) :
  Forall (λ r, ordered (Funding_Needed r)) l1 →
  l1 ≡ₚ l2 →
  StronglySorted (not_after key_lt sort_key) l1 →
  StronglySorted (not_after key_lt sort_key) l2 →
  (∀ score funding,
     filter (λ r, tied score funding r = true) l1
     = filter (λ r, tied score funding r = true) l2) →
  l1 = l2.
Proof.
  revert l2. induction l1 as [|x l1 IH]; intros l2 Hord Hperm Hs1 Hs2 Hcls.
  - by apply Permutation_nil_l in Hperm.
  - destruct l2 as [|y l2]; [by apply Permutation_nil_r in Hperm|].
    inversion Hord as [|? ? Hx Hord1]; subst.
    inversion Hs1 as [|? ? Hs1' Hx1]; subst.
    inversion Hs2 as [|? ? Hs2' Hy2]; subst.
    rewrite Forall_forall in Hx1, Hy2.
    assert (ordered (Funding_Needed y)) as Hy.
    { assert (y ∈ x :: l1) as Hin by (rewrite Hperm; left).
      by apply (proj1 (Forall_forall _ _) Hord). }
    assert (not_after key_lt sort_key y x) as Hyx.
    { assert (x ∈ y :: l2) as Hin by (rewrite <- Hperm; left).
      apply elem_of_cons in Hin as [->|Hin]; [apply key_lt_irrefl|auto]. }
    assert (not_after key_lt sort_key x y) as Hxy.
    { assert (y ∈ x :: l1) as Hin by (rewrite Hperm; left).
      apply elem_of_cons in Hin as [->|Hin]; [apply key_lt_irrefl|auto]. }
    assert (x = y) as ->.
    { pose proof (Hcls (ESG_Score x) (Funding_Needed x)) as Hc.
      rewrite !filter_cons in Hc.
      rewrite decide_True in Hc
        by (apply not_after_both_tied; try done; apply key_lt_irrefl).
      rewrite decide_True in Hc by (by apply not_after_both_tied).
      congruence. }
    f_equal. apply IH; try done.
    + by apply Permutation_cons_inv in Hperm.
    + intros score funding. specialize (Hcls score funding).
      rewrite !filter_cons in Hcls. destruct (decide _); congruence.
Qed.

(** So [sorted], written as an insertion, returns what any stable sort by
    the same key returns on rows without a NaN funding. *)
Lemma sorted_is_the_stable_sort (l l' : list match_row) :
  Forall (λ r, ordered (Funding_Needed r)) l →
  l' ≡ₚ l →
  StronglySorted (not_after key_lt sort_key) l' →
  (∀ score funding,
     filter (λ r, tied score funding r = true) l'
     = filter (λ r, tied score funding r = true) l) →
  l' = sorted key_lt sort_key l.
Proof.
  intros Hord Hperm Hs Hcls. apply stable_sorted_unique; try done.
  - by rewrite Hperm.
  - by rewrite sorted_perm.
  - apply (sorted_ok key_lt sort_key (λ k, ordered k.2)); try done.
    + apply key_lt_asym.
    + intros k1 k2 k3. apply key_le_trans.
  - intros score funding. rewrite Hcls. symmetry. apply sorted_stable.
    intros x y [Hx1 Hx2]%andb_prop [Hy1 Hy2]%andb_prop.
    apply bool_decide_eq_true in Hx1, Hy1.
    rewrite key_lt_alt. unfold sort_key; simpl.
    rewrite decide_True by lia. by apply (float_eq_not_lt _ _ funding).
Qed.

(** ** The dimension-letter check *)

Lemma leads_with_selected_strip sel tag :
  leads_with_selected sel tag =
  match Py.strip tag with
  | EmptyString => false
  | String c _ => bool_decide (Py.upper (String c EmptyString) ∈ sel)
  end.
Proof. reflexivity. Qed.

(** When the check returns, it has found what the trimmed condition says. *)
Lemma any_selected_ok sel tokens b :
  any_selected sel tokens = Ok b → b = existsb (leads_with_selected sel) tokens.
Proof.
  induction tokens as [|tag rest IH]; cbn [any_selected existsb]; [congruence|].
  rewrite leads_with_selected_strip.
  destruct (Py.strip tag) as [|c r]; [done|].
  destruct (bool_decide _); [cbn [orb]; congruence|]. exact IH.
Qed.

(** Without blank tokens the check returns. *)
Lemma any_selected_total sel tokens :
  Forall (λ t, blank t = false) tokens →
  any_selected sel tokens = Ok (existsb (leads_with_selected sel) tokens).
Proof.
  induction 1 as [|tag rest Htag _ IH]; cbn [any_selected existsb]; [done|].
  rewrite leads_with_selected_strip.
  apply bool_decide_eq_false in Htag.
  destruct (Py.strip tag) as [|c r]; [done|].
  by destruct (bool_decide _).
Qed.


(** ** The loop *)

Lemma bind_ok {A B} (f : A → result B) a : (Ok a ≫= f) = f a.
Proof. reflexivity. Qed.

Lemma bind_raise {A B} (f : A → result B) e : (Raise e ≫= f) = Raise e.
Proof. reflexivity. Qed.

Lemma bind_ok_inv {A B} (f : A → result B) r b :
  (r ≫= f) = Ok b → ∃ a, r = Ok a ∧ f a = Ok b.
Proof. destruct r; [eauto|done]. Qed.

Section EngineFacts.
Context (float_of_str : string → option pyfloat) (str_of_float : pyfloat → string).

Lemma visit_all_app isec m pref sel acc l1 l2 :
  visit_all float_of_str str_of_float isec m pref sel acc (l1 ++ l2)
  = visit_all float_of_str str_of_float isec m pref sel acc l1
      ≫= λ ms, visit_all float_of_str str_of_float isec m pref sel ms l2.
Proof.
  revert acc. induction l1 as [|p l1 IH]; intros acc; simpl; [done|].
  destruct (visit _ _ _ _ _ _ _ p); [|done]. rewrite !bind_ok. apply IH.
Qed.

(** The three conditions tested first, as the loop computes them. *)
Lemma visit_unfold a m sel acc p f raw :
  py_float float_of_str (min_investment_size a) = Ok m →
  py_float float_of_str (funding_needed p) = Ok f →
  esg_tags p = VStr raw →
  visit float_of_str str_of_float (investor_sector str_of_float a) m
        (preferred_esg str_of_float a) sel acc p
  = if sector_equal str_of_float a p && funding_reaches_floor float_of_str a p
       && esg_overlap str_of_float a p
    then any_selected sel (Py.split "," raw)
           ≫= λ hit : bool, Ok (if hit then acc ++ [row_of float_of_str str_of_float a p]
                                else acc)
    else Ok acc.
Proof.
  intros Hm Hf Hraw. unfold visit, row_of, funding_reaches_floor, esg_overlap,
    esg_score_of, sector_equal.
  rewrite Hm, Hf, Hraw, parse_esg_tags_ok, !bind_ok. cbn [as_str].
  fold (investor_sector str_of_float a).
  destruct (_ && _ && _); [|done].
  rewrite bind_ok. destruct (any_selected _ _) as [[]|]; done.
Qed.

Lemma qualifies_unfold a sel p raw :
  esg_tags p = VStr raw →
  qualifies float_of_str str_of_float a sel p
  = sector_equal str_of_float a p && funding_reaches_floor float_of_str a p
    && esg_overlap str_of_float a p
    && existsb (leads_with_selected sel) (Py.split "," raw).
Proof. intros H. unfold qualifies, dimension_letter. by rewrite H. Qed.

(** What one turn of the loop adds, when it returns. *)
Lemma visit_ok a m sel acc p ms :
  py_float float_of_str (min_investment_size a) = Ok m →
  visit float_of_str str_of_float (investor_sector str_of_float a) m
        (preferred_esg str_of_float a) sel acc p = Ok ms →
  ms = acc ++ (if qualifies float_of_str str_of_float a sel p
               then [row_of float_of_str str_of_float a p] else []).
Proof.
  intros Hm Hv.
  destruct (py_float float_of_str (funding_needed p)) as [f|e] eqn:Hf;
    [|by unfold visit in Hv; rewrite Hf in Hv].
  destruct (esg_tags p) as [raw| |] eqn:Hraw;
    [|by unfold visit in Hv; rewrite Hf, Hraw in Hv..].
  rewrite (visit_unfold a m sel acc p f raw) in Hv by done.
  rewrite (qualifies_unfold a sel p raw) by done.
  destruct (_ && _ && _); simpl.
  - apply bind_ok_inv in Hv as (hit & Hhit & Hms).
    apply any_selected_ok in Hhit. rewrite <- Hhit.
    destruct hit; [congruence|]. rewrite app_nil_r. congruence.
  - rewrite app_nil_r. congruence.
Qed.

Lemma visit_all_ok a m sel acc projs ms :
  py_float float_of_str (min_investment_size a) = Ok m →
  visit_all float_of_str str_of_float (investor_sector str_of_float a) m
            (preferred_esg str_of_float a) sel acc projs = Ok ms →
  ms = acc ++ encounter_order float_of_str str_of_float a sel projs.
Proof.
  intros Hm. revert acc. unfold encounter_order.
  induction projs as [|p projs IH]; intros acc; simpl.
  - rewrite app_nil_r. congruence.
  - intros (mid & Hmid & Hrest)%bind_ok_inv.
    apply (visit_ok a m) in Hmid; [|done]. apply IH in Hrest. subst.
    rewrite filter_cons.
    destruct (qualifies _ _ a sel p) eqn:Hq.
    + rewrite decide_True by done. by rewrite <- app_assoc.
    + rewrite decide_False by done. by rewrite app_nil_r.
Qed.

(** On well-formed projects the loop returns. *)
Lemma visit_all_total a m sel acc projs :
  py_float float_of_str (min_investment_size a) = Ok m →
  Forall (well_formed float_of_str) projs →
  ∃ ms, visit_all float_of_str str_of_float (investor_sector str_of_float a) m
          (preferred_esg str_of_float a) sel acc projs = Ok ms.
Proof.
  intros Hm Hall. revert acc.
  induction Hall as [|p projs [[f Hf] (raw & Hraw & Hnb)] _ IH]; intros acc; simpl.
  - eauto.
  - rewrite (visit_unfold a m sel acc p f raw) by done.
    rewrite (any_selected_total sel _ Hnb).
    destruct (_ && _ && _); rewrite !bind_ok; apply IH.
Qed.

End EngineFacts.

(** ** The engine as a whole *)

Section Matching.
Context (float_of_str : string → option pyfloat) (str_of_float : pyfloat → string).

Lemma encounter_order_no_floor a sel projs e :
  py_float float_of_str (min_investment_size a) = Raise e →
  encounter_order float_of_str str_of_float a sel projs = [].
Proof.
  intros Hm. unfold encounter_order.
  induction projs as [|p projs IH]; [done|].
  rewrite filter_cons, decide_False; [done|].
  unfold qualifies, funding_reaches_floor. rewrite Hm.
  destruct (py_float _ (funding_needed p)); rewrite andb_false_r; done.
Qed.

(** What a call that returns has in its frame: the matches found in the
    order of the collection, sorted. *)
Lemma match_projects_frame a projs sel out :
  match_projects_to_investor float_of_str str_of_float a projs sel = Ok out →
  frame out = sorted key_lt sort_key (encounter_order float_of_str str_of_float a sel projs).
Proof.
  unfold match_projects_to_investor.
  destruct (py_float float_of_str (min_investment_size a)) as [m|e] eqn:Hm.
  - intros (ms & Hms & [= <-])%bind_ok_inv.
    apply (visit_all_ok _ _ a m) in Hms; [|done]. simpl in Hms. subst ms.
    simpl. by destruct (encounter_order _ _ _ _ _).
  - rewrite (encounter_order_no_floor a sel projs e Hm).
    destruct e; intros [= <-]; done.
Qed.

Lemma match_projects_total a projs sel m :
  py_float float_of_str (min_investment_size a) = Ok m →
  Forall (well_formed float_of_str) projs →
  ∃ out, match_projects_to_investor float_of_str str_of_float a projs sel = Ok out.
Proof.
  intros Hm Hall. unfold match_projects_to_investor. rewrite Hm.
  destruct (visit_all_total float_of_str str_of_float a m sel [] projs Hm Hall)
    as [ms ->].
  rewrite bind_ok. eauto.
Qed.

Lemma encounter_order_elem a sel projs r :
  r ∈ encounter_order float_of_str str_of_float a sel projs ↔
  ∃ p, p ∈ projs ∧ qualifies float_of_str str_of_float a sel p = true
       ∧ r = row_of float_of_str str_of_float a p.
Proof.
  unfold encounter_order. rewrite list_elem_of_fmap. split.
  - intros (p & -> & [Hq Hp]%list_elem_of_filter). eauto.
  - intros (p & Hp & Hq & ->). exists p. split; [done|].
    by apply list_elem_of_filter.
Qed.

(** C1, as amended: on every input on which the call returns, the rows of
    the frame are exactly the match records of the projects for which the
    four conditions hold together, condition (4) being read on the trimmed
    token: sector equal after lowercasing, funding at or above the floor,
    positive ESG score, and some comma-separated token of the raw tag text
    that, once stripped of surrounding blanks, starts with a character
    whose uppercase is selected.  And the call does return whenever the
    minimum converts and every project is well formed. *)
Theorem match_iff_four_conditions (a : investor) (projs : list project) (sel : list string) :
  (∀ m, py_float float_of_str (min_investment_size a) = Ok m →
        Forall (well_formed float_of_str) projs →
        ∃ out, match_projects_to_investor float_of_str str_of_float a projs sel = Ok out)
  ∧ ∀ out,
      match_projects_to_investor float_of_str str_of_float a projs sel = Ok out →
      frame out ≡ₚ encounter_order float_of_str str_of_float a sel projs
      ∧ (∀ p, p ∈ projs → qualifies float_of_str str_of_float a sel p = true →
              row_of float_of_str str_of_float a p ∈ frame out)
      ∧ (∀ r, r ∈ frame out →
              ∃ p, p ∈ projs ∧ qualifies float_of_str str_of_float a sel p = true
                   ∧ r = row_of float_of_str str_of_float a p).
Proof.
  split; [intros m; apply match_projects_total|].
  intros out Hout. apply match_projects_frame in Hout.
  assert (frame out ≡ₚ encounter_order float_of_str str_of_float a sel projs) as Hperm.
  { rewrite Hout. apply sorted_perm. }
  split; [done|]. split.
  - intros p Hp Hq. rewrite Hperm. apply encounter_order_elem. eauto.
  - intros r Hr. rewrite Hperm in Hr. by apply encounter_order_elem.
Qed.

(** *** Ranking *)

Lemma encounter_order_ordered a sel projs :
  Forall (λ r, ordered (sort_key r).2)
         (encounter_order float_of_str str_of_float a sel projs).
Proof.
  apply Forall_forall. intros r (p & _ & Hq & ->)%encounter_order_elem.
  unfold qualifies in Hq. apply andb_prop in Hq as [Hq _].
  apply andb_prop in Hq as [Hq _]. apply andb_prop in Hq as [_ Hq].
  unfold funding_reaches_floor in Hq. unfold sort_key, row_of; simpl.
  destruct (py_float _ (funding_needed p)) as [f|]; [|done].
  destruct (py_float _ (min_investment_size a)) as [m|]; [|done].
  by apply float_ge_ordered in Hq as [? _].
Qed.

Lemma not_after_ranked r1 r2 :
  ordered (Funding_Needed r1) → ordered (Funding_Needed r2) →
  not_after key_lt sort_key r1 r2 → ranked_before r1 r2.
Proof.
  intros H1 H2. unfold not_after, ranked_before, float_le.
  rewrite key_lt_alt. unfold sort_key; simpl.
  destruct (decide _) as [E|E].
  - intros Hlt. right. split; [lia|]. by apply float_not_lt_ge.
  - intros Hlt%bool_decide_eq_false. left. lia.
Qed.

Lemma StronglySorted_among {A} (R R' : A → A → Prop) (P : A → Prop) l :
  (∀ x y, P x → P y → R x y → R' x y) →
  Forall P l → StronglySorted R l → StronglySorted R' l.
Proof.
  intros HR HP Hs. induction Hs as [|x l Hs IH Hx]; [constructor|].
  inversion HP as [|? ? Px Pl]; subst. constructor; [by apply IH|].
  rewrite Forall_forall in Hx, Pl |- *. intros y Hy. apply HR; auto.
Qed.

(** C2: the frame of a call that returns is sorted by ESG score descending
    and, for equal scores, by funding needed ascending; and the matches of
    one score and one funding stand in the order in which the collection
    holds them. *)
Theorem match_list_ranked (a : investor) (projs : list project) (sel : list string)
    (out : outcome) :
  match_projects_to_investor float_of_str str_of_float a projs sel = Ok out →
  StronglySorted ranked_before (frame out)
  ∧ ∀ score funding,
      filter (λ r, tied score funding r = true) (frame out)
      = filter (λ r, tied score funding r = true)
               (encounter_order float_of_str str_of_float a sel projs).
Proof.
  intros Hout. apply match_projects_frame in Hout. rewrite Hout. split.
  - apply (StronglySorted_among (not_after key_lt sort_key) _
             (λ r, ordered (Funding_Needed r))).
    + intros x y. apply not_after_ranked.
    + rewrite sorted_perm. apply encounter_order_ordered.
    + apply (sorted_ok key_lt sort_key (λ k, ordered k.2)).
      * apply key_lt_asym.
      * intros k1 k2 k3. apply key_le_trans.
      * apply encounter_order_ordered.
  - intros score funding. apply sorted_stable.
    intros x y [Hx1 Hx2]%andb_prop [Hy1 Hy2]%andb_prop.
    apply bool_decide_eq_true in Hx1, Hy1.
    rewrite key_lt_alt. unfold sort_key; simpl.
    rewrite decide_True by lia. by apply (float_eq_not_lt _ _ funding).
Qed.

End Matching.

(** *** Closed instances *)

Lemma match_iff_four_conditions_witness :
  (∃ out, Demo.run Demo.investor_1 [Demo.project_A; Demo.project_B] ["E"] = Ok out)
  ∧ [Demo.row_A] ≡ₚ
      encounter_order Demo.float_of_str Demo.str_of_float Demo.investor_1 ["E"]
        [Demo.project_A; Demo.project_B].
Proof.
  destruct (match_iff_four_conditions Demo.float_of_str Demo.str_of_float
              Demo.investor_1 [Demo.project_A; Demo.project_B] ["E"]) as [Hret Hrows].
  split.
  - apply (Hret (FFin (inject_Z 10000))); [reflexivity|].
    repeat constructor; try (by eexists).
    all: eexists; split; [reflexivity|]; by repeat constructor.
  - apply (Hrows {| st_errors := []; frame := [Demo.row_A] |}). by vm_compute.
Defined.

(** C1, as stated, fails on a tag written after a blank: with the filter
    {E} the project whose tag text is " E:green" is in the frame, and the
    first character of its one token is a space, so that condition (4) as
    worded does not hold. *)
Lemma leading_blank_matches :
  Demo.run Demo.investor_1 [Demo.project_L] ["E"]
    = Ok {| st_errors := []; frame := [Demo.row_L] |}
  ∧ row_of Demo.float_of_str Demo.str_of_float Demo.investor_1 Demo.project_L = Demo.row_L
  ∧ dimension_letter_raw ["E"] Demo.project_L = false
  ∧ qualifies_raw Demo.float_of_str Demo.str_of_float Demo.investor_1 ["E"] Demo.project_L
    = false.
Proof. by vm_compute. Qed.

Lemma match_list_ranked_witness :
  StronglySorted ranked_before [Demo.row_D; Demo.row_A; Demo.row_C]
  ∧ filter (λ r, tied 1 (FFin (inject_Z 15000)) r = true)
           [Demo.row_D; Demo.row_A; Demo.row_C]
    = [Demo.row_A; Demo.row_C].
Proof.
  destruct (match_list_ranked Demo.float_of_str Demo.str_of_float Demo.investor_1
              [Demo.project_A; Demo.project_B; Demo.project_C; Demo.project_D]
              ["E"; "S"; "G"]
              {| st_errors := []; frame := [Demo.row_D; Demo.row_A; Demo.row_C] |})
    as [Hsorted Hstable]; [by vm_compute|].
  split; [exact Hsorted|].
  exact (Hstable 1%nat (FFin (inject_Z 15000))).
Defined.

(** ** The dimension-letter filter *)

Lemma existsb_elem {A} (f : A → bool) (l : list A) :
  existsb f l = true ↔ ∃ x, x ∈ l ∧ f x = true.
Proof.
  rewrite existsb_exists. by setoid_rewrite list_elem_of_In.
Qed.

(** C4, as amended: the filter looks at the raw tag text, prefixes and
    all, but at each comma-separated token after trimming it.  When no
    token is blank, a project passes exactly when some token, stripped of
    surrounding blanks, starts with a character whose uppercase is
    selected; whenever the check returns at all, that is what it returns.
    Nothing but the selection and the raw text enters the check: the ESG
    score does not. *)
Theorem dimension_filter_trimmed (sel : list string) (p : project) (raw : string) :
  esg_tags p = VStr raw →
  (Forall (λ t, blank t = false) (Py.split "," raw) →
     any_selected sel (Py.split "," raw) = Ok (dimension_letter sel p))
  ∧ (∀ b, any_selected sel (Py.split "," raw) = Ok b → b = dimension_letter sel p)
  ∧ (dimension_letter sel p = true ↔
       ∃ tag c rest, tag ∈ Py.split "," raw ∧ Py.strip tag = String c rest
                     ∧ Py.upper (String c EmptyString) ∈ sel).
Proof.
  intros Hraw. unfold dimension_letter. rewrite Hraw. split; [|split].
  - apply any_selected_total.
  - apply any_selected_ok.
  - rewrite existsb_elem. split.
    + intros (tag & Hin & Hlead). rewrite leads_with_selected_strip in Hlead.
      destruct (Py.strip tag) as [|c rest] eqn:E; [done|].
      apply bool_decide_eq_true in Hlead. eauto 6.
    + intros (tag & c & rest & Hin & E & Hsel). exists tag. split; [done|].
      rewrite leads_with_selected_strip, E. by apply bool_decide_eq_true.
Qed.

Lemma dimension_filter_trimmed_witness :
  any_selected ["S"] (Py.split "," "E:green, S:jobs") = Ok true.
Proof.
  destruct (dimension_filter_trimmed ["S"]
              {| name := VStr "A"; sector := VStr "energy"; funding_needed := VNone;
                 esg_tags := VStr "E:green, S:jobs"; readiness_level := None |}
              "E:green, S:jobs" eq_refl) as [Htotal _].
  apply Htotal. by repeat constructor.
Defined.

(** C4, as stated, fails on a token that starts with a blank: the filter
    {E} lets the tag text " E:green" pass, while the literal leading
    character of its token is a space. *)
Lemma dimension_filter_not_raw :
  esg_tags Demo.project_L = VStr " E:green"
  ∧ any_selected ["E"] (Py.split "," " E:green") = Ok true
  ∧ dimension_letter_raw ["E"] Demo.project_L = false.
Proof. by vm_compute. Qed.

(** ** Failures *)

Section Failures.
Context (float_of_str : string → option pyfloat) (str_of_float : pyfloat → string).

(** A minimum that is a text which [float] rejects is reported, and the
    frame is empty. *)
Lemma invalid_minimum_reported a projs sel s :
  min_investment_size a = VStr s → float_of_str s = None →
  match_projects_to_investor float_of_str str_of_float a projs sel
  = Ok {| st_errors := [invalid_min_investment]; frame := [] |}.
Proof.
  intros Hs Hnone. unfold match_projects_to_investor, py_float. by rewrite Hs, Hnone.
Qed.

(** C5 fails on a missing minimum: [float(None)] raises [TypeError], which
    the handler for [ValueError] lets through, whatever the projects and
    the selection. *)
Theorem missing_minimum_raises (a : investor) (projs : list project) (sel : list string) :
  min_investment_size a = VNone →
  match_projects_to_investor float_of_str str_of_float a projs sel = Raise TypeError.
Proof.
  intros Hnone. unfold match_projects_to_investor, py_float. by rewrite Hnone.
Qed.

Lemma visit_raises isec m pref sel acc p e :
  py_float float_of_str (funding_needed p) = Raise e →
  visit float_of_str str_of_float isec m pref sel acc p = Raise e.
Proof. intros H. unfold visit. by rewrite H. Qed.

Lemma visit_all_raises isec m pref sel acc projs p e :
  p ∈ projs → py_float float_of_str (funding_needed p) = Raise e →
  ∃ e', visit_all float_of_str str_of_float isec m pref sel acc projs = Raise e'.
Proof.
  intros Hin Hp. revert acc.
  induction Hin as [p projs|p q projs _ IH]; intros acc; simpl.
  - rewrite (visit_raises _ _ _ _ _ _ e) by done. eauto.
  - destruct (visit _ _ _ _ _ _ _ q) as [mid|e1]; [|by eauto].
    rewrite bind_ok. apply IH, Hp.
Qed.

(** C6: with a minimum that converts, one project whose funding does not
    convert makes the call raise: nothing is reported, nothing recovered,
    no project skipped.  If the projects before it are walked without
    failure, the exception is the one [float] raised. *)
Theorem bad_funding_raises (a : investor) (projs : list project) (sel : list string)
    (m : pyfloat) (p : project) (e : exn) :
  py_float float_of_str (min_investment_size a) = Ok m →
  p ∈ projs →
  py_float float_of_str (funding_needed p) = Raise e →
  (∃ e', match_projects_to_investor float_of_str str_of_float a projs sel = Raise e')
  ∧ ∀ before after ms,
      projs = before ++ p :: after →
      visit_all float_of_str str_of_float (investor_sector str_of_float a) m
        (preferred_esg str_of_float a) sel [] before = Ok ms →
      match_projects_to_investor float_of_str str_of_float a projs sel = Raise e.
Proof.
  intros Hm Hin Hp. unfold match_projects_to_investor. rewrite Hm. split.
  - destruct (visit_all_raises (investor_sector str_of_float a) m
                (preferred_esg str_of_float a) sel [] projs p e Hin Hp) as [e' ->].
    eauto.
  - intros before after ms -> Hbefore.
    rewrite visit_all_app, Hbefore, bind_ok. simpl.
    by rewrite (visit_raises _ _ _ _ _ _ e).
Qed.


End Failures.

(** *** Closed instances of the failures *)

Lemma invalid_minimum_reported_example :
  Demo.run Demo.investor_text [Demo.project_A; Demo.project_B] ["E"; "S"; "G"]
  = Ok {| st_errors := [invalid_min_investment]; frame := [] |}.
Proof. by vm_compute. Qed.

Lemma missing_minimum_raises_witness :
  Demo.run Demo.investor_missing [Demo.project_A; Demo.project_B] ["E"; "S"; "G"]
  = Raise TypeError.
Proof.
  apply (missing_minimum_raises Demo.float_of_str Demo.str_of_float
           Demo.investor_missing). reflexivity.
Defined.

Lemma bad_funding_raises_witness :
  Demo.run Demo.investor_1 [Demo.project_A; Demo.project_N; Demo.project_B] ["E"]
  = Raise ValueError.
Proof.
  destruct (bad_funding_raises Demo.float_of_str Demo.str_of_float Demo.investor_1
              [Demo.project_A; Demo.project_N; Demo.project_B] ["E"]
              (FFin (inject_Z 10000)) Demo.project_N ValueError) as [_ Hexact].
  - reflexivity.
  - apply list_elem_of_further, list_elem_of_here.
  - by vm_compute.
  - apply (Hexact [Demo.project_A] [Demo.project_B] [Demo.row_A]); [reflexivity|].
    by vm_compute.
Defined.



(** An empty tag text, matched by an investor without criteria. *)
Lemma empty_tags_raise :
  Demo.run Demo.investor_3 [Demo.project_E] ["E"; "S"; "G"] = Raise IndexError.
Proof. by vm_compute. Qed.

(** The same trailing comma goes unnoticed when a token before it is
    selected: [any] stops there. *)
Lemma trailing_comma_unseen :
  any_selected ["E"] (Py.split "," "E:green,") = Ok true.
Proof. by vm_compute. Qed.

(** ** The example of the specification *)

(** C7: for the investor (energy, 10000, "green,solar") and the projects
    A (energy, 15000, "E:green,S:jobs") and B (energy, 8000, "E:solar"),
    the filter {E} leaves exactly A, with score 1, B failing the funding
    floor and nothing else; the filter {S} leaves A as well, through its
    token "S:jobs", while the one tag that scores is "green", written with
    the prefix E. *)
Theorem specification_example (float_of_str : string → option pyfloat)
    (str_of_float : pyfloat → string) :
  match_projects_to_investor float_of_str str_of_float Demo.investor_1
    [Demo.project_A; Demo.project_B] ["E"]
  = Ok {| st_errors := []; frame := [Demo.row_A] |}
  ∧ ESG_Score Demo.row_A = 1%nat
  ∧ funding_reaches_floor float_of_str Demo.investor_1 Demo.project_B = false
  ∧ sector_equal str_of_float Demo.investor_1 Demo.project_B = true
  ∧ esg_overlap str_of_float Demo.investor_1 Demo.project_B = true
  ∧ dimension_letter ["E"] Demo.project_B = true
  ∧ match_projects_to_investor float_of_str str_of_float Demo.investor_1
      [Demo.project_A; Demo.project_B] ["S"]
    = Ok {| st_errors := []; frame := [Demo.row_A] |}
  ∧ preferred_esg str_of_float Demo.investor_1 ∩ parse_esg_tags_str "E:green,S:jobs"
    = {[ "green" ]}
  ∧ leads_with_selected ["S"] "E:green" = false
  ∧ leads_with_selected ["S"] "S:jobs" = true.
Proof. by vm_compute. Qed.

(** ** The notes *)

Section NotesFacts.
Import Notes.

Lemma conflicts_text r x :
  is_Some (investor_name r) → is_Some (project_name r) →
  conflicts r x = bool_decide (key_of x = key_of r).
Proof. intros [a Ha] [b Hb]. unfold conflicts. by rewrite Ha, Hb. Qed.

Lemma conflicts_null r x : project_name r = None → conflicts r x = false.
Proof. intros H. unfold conflicts. rewrite H. by destruct (investor_name r). Qed.

(** A row with a NULL in its key replaces nothing: it is added. *)
Lemma insert_or_replace_null r t :
  project_name r = None → insert_or_replace r t = t ++ [r].
Proof.
  intros H. unfold insert_or_replace. f_equal.
  induction t as [|x t IH]; [done|].
  by rewrite filter_cons, decide_True, IH by (by apply conflicts_null).
Qed.

(** A row with a text in both key columns takes the place of the rows of
    its key. *)
Lemma insert_or_replace_text r t :
  is_Some (investor_name r) → is_Some (project_name r) →
  insert_or_replace r t = select_others (key_of r) t ++ [r].
Proof.
  intros H1 H2. unfold insert_or_replace, select_others. f_equal.
  induction t as [|x t IH]; [done|].
  rewrite !filter_cons, IH, (conflicts_text r x H1 H2).
  destruct (decide (key_of x = key_of r)) as [E|E].
  - rewrite bool_decide_eq_true_2 by done.
    rewrite decide_False by done. by rewrite decide_False by (by intros ?).
  - rewrite bool_decide_eq_false_2 by done.
    rewrite decide_True by done. by rewrite decide_True.
Qed.

Lemma select_others_idem (k : cell * cell) (t : list note_row) :
  select_others k (select_others k t) = select_others k t.
Proof.
  unfold select_others. induction t as [|r t IH]; [done|].
  rewrite (filter_cons (λ x, key_of x ≠ k)).
  destruct (decide (key_of r ≠ k)) as [Hne|_]; [|done].
  by rewrite filter_cons, decide_True, IH.
Qed.

Lemma select_others_own (k : cell * cell) (l : list note_row) (r : note_row) :
  key_of r = k → select_others k (l ++ [r]) = select_others k l.
Proof.
  intros Hk. unfold select_others.
  rewrite filter_app, filter_cons, decide_False, filter_nil, app_nil_r; [done|].
  by intros H.
Qed.

Lemma select_key_others (a b : string) (t : list note_row) :
  select_key (Some a, Some b) (select_others (Some a, Some b) t) = [].
Proof.
  unfold select_key, select_others. induction t as [|r t IH]; [done|].
  rewrite (filter_cons (λ x, key_of x ≠ _)).
  destruct (decide (key_of r ≠ (Some a, Some b))) as [Hne|_]; [|done].
  rewrite filter_cons, decide_False; [done|].
  intros [H1 H2]%andb_prop. apply Hne.
  destruct r as [[i|] [q|] ? ?]; simpl in *; try done.
  apply bool_decide_eq_true in H1, H2. by subst.
Qed.

(** On a key of two texts the last write wins.  Whatever the table held,
    after two successive writes for the investor [inv] and the project
    [proj] the query by that key returns exactly one row, which carries the
    flag and the note of the second write; the table is the one the second
    write alone would have left; and the rows of all other keys are as they
    were. *)
Lemma note_last_write_wins (t : list note_row) (inv proj : string)
    (flag1 flag2 : bool) (text1 text2 : string) :
  let t2 := record_note (Some inv) (Some proj) flag2 text2
              (record_note (Some inv) (Some proj) flag1 text1 t) in
  select_key (Some inv, Some proj) t2
    = [{| investor_name := Some inv; project_name := Some proj;
          interested := Z.b2z flag2; notes := text2 |}]
  ∧ t2 = record_note (Some inv) (Some proj) flag2 text2 t
  ∧ select_others (Some inv, Some proj) t2 = select_others (Some inv, Some proj) t.
Proof.
  unfold record_note. cbv zeta.
  set (k := (Some inv, Some proj)).
  set (r1 := {| investor_name := Some inv; project_name := Some proj;
                interested := Z.b2z flag1; notes := text1 |}).
  set (r2 := {| investor_name := Some inv; project_name := Some proj;
                interested := Z.b2z flag2; notes := text2 |}).
  rewrite (insert_or_replace_text r1), !(insert_or_replace_text r2) by (simpl; eauto).
  change (key_of r1) with k. change (key_of r2) with k.
  rewrite (select_others_own k _ r1), select_others_idem by done.
  split; [|split].
  - pose proof (select_key_others inv proj t) as Hnone.
    unfold select_key in *. fold k in Hnone.
    rewrite filter_app, Hnone, filter_cons, decide_True; [done|].
    simpl. by rewrite !bool_decide_eq_true_2.
  - done.
  - by rewrite (select_others_own k _ r2), select_others_idem.
Qed.

(** C9 fails on a project without a name.  [None] is bound as NULL, the
    primary key does not hold a NULL back, and [INSERT OR REPLACE] then
    replaces nothing: after the writes (true, "x") and (false, "y") for the
    investor [inv] and such a project, the table has gained both rows, the
    first value is still there beside the second, and the query by that key
    returns neither. *)
Theorem null_name_not_replaced (t : list note_row) (inv : string) :
  let r1 := {| investor_name := Some inv; project_name := None;
               interested := 1; notes := "x" |} in
  let r2 := {| investor_name := Some inv; project_name := None;
               interested := 0; notes := "y" |} in
  let t2 := record_note (Some inv) None false "y" (record_note (Some inv) None true "x" t) in
  t2 = t ++ [r1; r2]
  ∧ rows_of_key (Some inv, None) t2 = rows_of_key (Some inv, None) t ++ [r1; r2]
  ∧ select_key (Some inv, None) t2 = [].
Proof.
  cbv zeta. unfold record_note. rewrite !insert_or_replace_null by done.
  rewrite <- app_assoc. split; [done|]. split.
  - unfold rows_of_key.
    by rewrite !filter_app, !filter_cons, !filter_nil, !decide_True.
  - unfold select_key. simpl.
    induction (t ++ _) as [|x l IH]; [done|].
    rewrite filter_cons, decide_False; [done|].
    intros [_ H]%andb_prop. by destruct (project_name x).
Qed.

End NotesFacts.

(** ** Values of the string operations *)

Example split_trailing : Py.split "," "E:green," = ["E:green"; ""].
Proof. reflexivity. Qed.

Example split_empty : Py.split "," "" = [""].
Proof. reflexivity. Qed.

Example strip_blanks : Py.strip "  a b  " = "a b".
Proof. reflexivity. Qed.

Example replace_everywhere : Py.replace "E:" "" "E:fooE:bar,SE::x" = "foobar,S:x".
Proof. reflexivity. Qed.

Example lower_letters : Py.lower "AbZ:@[" = "abz:@[".
Proof. reflexivity. Qed.

Example upper_letters : Py.upper "azb`{Q" = "AZB`{Q".
Proof. reflexivity. Qed.

(** The three removals are successive: a prefix that an earlier removal
    brings together is taken out by a later one, not the other way round. *)
Example removals_in_order :
  parse_esg_tags_str "SE::x" = {[ "x" ]} ∧ parse_esg_tags_str "ES::x" = {[ "e:x" ]}.
Proof. by vm_compute. Qed.

(** * Further properties *)

(** ** What a returned frame holds *)

Section FrameFacts.
Context (float_of_str : string → option pyfloat) (str_of_float : pyfloat → string).

Lemma frame_elem a projs sel out r :
  match_projects_to_investor float_of_str str_of_float a projs sel = Ok out →
  r ∈ frame out ↔ r ∈ encounter_order float_of_str str_of_float a sel projs.
Proof.
  intros Hout%match_projects_frame. rewrite Hout.
  by rewrite (sorted_perm key_lt sort_key).
Qed.

Lemma qualifies_parts a sel p :
  qualifies float_of_str str_of_float a sel p = true →
  sector_equal str_of_float a p = true
  ∧ funding_reaches_floor float_of_str a p = true
  ∧ esg_overlap str_of_float a p = true
  ∧ dimension_letter sel p = true.
Proof.
  unfold qualifies. intros H.
  apply andb_prop in H as [H H4]. apply andb_prop in H as [H H3].
  apply andb_prop in H as [H1 H2]. done.
Qed.

(** X1: every row of a returned frame comes from a project of the investor's
    sector (case apart), whose funding is at or above the floor, and whose
    score is at least one and at most the number of the investor's
    criteria. *)
Theorem frame_rows_sound (a : investor) (projs : list project) (sel : list string)
    (out : outcome) (r : match_row) :
  match_projects_to_investor float_of_str str_of_float a projs sel = Ok out →
  r ∈ frame out →
  Py.lower (py_str str_of_float (Sector r)) = investor_sector str_of_float a
  ∧ (∃ m, py_float float_of_str (min_investment_size a) = Ok m
          ∧ float_ge (Funding_Needed r) m = true)
  ∧ (1 ≤ ESG_Score r ≤ size (preferred_esg str_of_float a))%nat.
Proof.
  intros Hout Hr. apply (frame_elem a projs sel out r Hout) in Hr.
  apply encounter_order_elem in Hr as (p & _ & Hq & ->).
  apply qualifies_parts in Hq as (H1 & H2 & H3 & _).
  split; [|split].
  - by apply bool_decide_eq_true in H1.
  - unfold funding_reaches_floor in H2. unfold row_of; simpl.
    destruct (py_float _ (funding_needed p)) as [f|]; [|done].
    destruct (py_float _ (min_investment_size a)) as [m|]; [|done]. eauto.
  - apply bool_decide_eq_true in H3. unfold row_of; simpl. split; [lia|].
    unfold esg_score_of. destruct (parse_esg_tags _) as [tags|]; [|lia].
    apply subseteq_size, intersection_subseteq_l.
Qed.

(** X2: a returned frame has one row for each project that qualifies, so no
    more rows than the collection has projects; none for an empty
    collection. *)
Theorem frame_length (a : investor) (projs : list project) (sel : list string)
    (out : outcome) :
  match_projects_to_investor float_of_str str_of_float a projs sel = Ok out →
  length (frame out)
    = length (filter (λ p, qualifies float_of_str str_of_float a sel p = true) projs)
  ∧ (length (frame out) ≤ length projs)%nat.
Proof.
  intros Hout%match_projects_frame. rewrite Hout.
  rewrite (sorted_perm key_lt sort_key). unfold encounter_order.
  rewrite length_fmap. split; [done|]. apply length_filter.
Qed.

Lemma dimension_letter_none p : dimension_letter [] p = false.
Proof.
  unfold dimension_letter. destruct (esg_tags p) as [raw| |]; try done.
  induction (Py.split "," raw) as [|t ts IH]; [done|].
  cbn [existsb]. rewrite IH, orb_false_r, leads_with_selected_strip.
  destruct (Py.strip t); [done|]. apply bool_decide_eq_false. by intros H%elem_of_nil.
Qed.

(** X3: with no dimension letter selected nothing is matched: a call that
    returns has an empty frame. *)
Theorem empty_selection_empty_frame (a : investor) (projs : list project)
    (out : outcome) :
  match_projects_to_investor float_of_str str_of_float a projs [] = Ok out →
  frame out = [].
Proof.
  intros Hout%match_projects_frame. rewrite Hout.
  assert (encounter_order float_of_str str_of_float a [] projs = []) as ->; [|done].
  clear Hout. unfold encounter_order. induction projs as [|p projs IH]; [done|].
  rewrite filter_cons, decide_False; [done|].
  unfold qualifies. by rewrite dimension_letter_none, andb_false_r.
Qed.

(** X4: the one message is shown exactly when [float] rejects the text of the
    minimum; the frame is then empty whatever the projects are, which are
    not read.  Otherwise a call that returns shows nothing. *)
Theorem error_shown_iff (a : investor) (projs : list project) (sel : list string) :
  (py_float float_of_str (min_investment_size a) = Raise ValueError →
     match_projects_to_investor float_of_str str_of_float a projs sel
     = Ok {| st_errors := [invalid_min_investment]; frame := [] |})
  ∧ ∀ out,
      match_projects_to_investor float_of_str str_of_float a projs sel = Ok out →
      (st_errors out = [] ∧ ∃ m, py_float float_of_str (min_investment_size a) = Ok m)
      ∨ (out = {| st_errors := [invalid_min_investment]; frame := [] |}
         ∧ py_float float_of_str (min_investment_size a) = Raise ValueError).
Proof.
  unfold match_projects_to_investor. split.
  - by intros ->.
  - intros out.
    destruct (py_float float_of_str (min_investment_size a)) as [m|e].
    + intros (ms & _ & [= <-])%bind_ok_inv. left. eauto.
    + destruct e; intros [= <-]. by right.
Qed.

End FrameFacts.

(** ** When the call returns *)

Section Returns.
Context (float_of_str : string → option pyfloat) (str_of_float : pyfloat → string).

(** A wider selection finds a selected token no later. *)
Lemma any_selected_wider sel sel' tokens b :
  (∀ x, x ∈ sel → x ∈ sel') →
  any_selected sel tokens = Ok b →
  ∃ b', any_selected sel' tokens = Ok b' ∧ (b = true → b' = true).
Proof.
  intros Hsub. induction tokens as [|t ts IH]; cbn [any_selected].
  - intros [= <-]. eauto.
  - destruct (Py.strip t) as [|c rest]; [done|].
    destruct (bool_decide (_ ∈ sel)) eqn:E.
    + apply bool_decide_eq_true in E. intros [= <-].
      rewrite bool_decide_eq_true_2 by auto. eauto.
    + intros Hts. destruct (bool_decide (_ ∈ sel')); [eauto|]. by apply IH.
Qed.

(** Whether one turn of the loop returns depends neither on the matches
    found so far nor, once it returns, on widening the selection. *)
Lemma visit_returns_wider isec m pref sel sel' acc acc' p ms :
  (∀ x, x ∈ sel → x ∈ sel') →
  visit float_of_str str_of_float isec m pref sel acc p = Ok ms →
  ∃ ms', visit float_of_str str_of_float isec m pref sel' acc' p = Ok ms'.
Proof.
  intros Hsub. unfold visit.
  destruct (py_float float_of_str (funding_needed p)) as [f|]; [|done].
  rewrite !bind_ok.
  destruct (parse_esg_tags (esg_tags p)) as [tags|]; [|done].
  rewrite !bind_ok.
  destruct (_ && _ && _); [|by eauto].
  destruct (as_str (esg_tags p)) as [raw|]; [|done].
  rewrite !bind_ok.
  destruct (any_selected sel _) as [b|] eqn:E; [|done].
  destruct (any_selected_wider sel sel' _ b Hsub E) as (b' & -> & _).
  rewrite !bind_ok. intros _. destruct b'; eauto.
Qed.

(** The loop returns exactly when each of its turns does. *)
Lemma visit_all_returns_iff isec m pref sel acc projs :
  (∃ ms, visit_all float_of_str str_of_float isec m pref sel acc projs = Ok ms)
  ↔ Forall (λ p, ∃ ms, visit float_of_str str_of_float isec m pref sel [] p = Ok ms)
           projs.
Proof.
  revert acc. induction projs as [|p projs IH]; intros acc; simpl.
  - split; [by constructor|eauto].
  - split.
    + intros (ms & (mid & Hmid & Hrest)%bind_ok_inv). constructor.
      * by apply (visit_returns_wider isec m pref sel sel acc [] p mid).
      * apply (IH mid). eauto.
    + intros H. inversion H as [|? ? (ms & Hms) Hrest]; subst.
      destruct (visit_returns_wider isec m pref sel sel [] acc p ms) as (mid & ->);
        [done..|].
      rewrite bind_ok. by apply IH.
Qed.

Lemma dimension_letter_wider sel sel' p :
  (∀ x, x ∈ sel → x ∈ sel') →
  dimension_letter sel p = true → dimension_letter sel' p = true.
Proof.
  intros Hsub. unfold dimension_letter. destruct (esg_tags p) as [raw| |]; try done.
  rewrite !existsb_elem. intros (t & Ht & Hlead). exists t. split; [done|].
  rewrite leads_with_selected_strip in *. destruct (Py.strip t); [done|].
  apply bool_decide_eq_true in Hlead. apply bool_decide_eq_true. auto.
Qed.

Lemma encounter_order_wider a sel sel' projs :
  (∀ x, x ∈ sel → x ∈ sel') →
  encounter_order float_of_str str_of_float a sel projs
  ⊆+ encounter_order float_of_str str_of_float a sel' projs.
Proof.
  intros Hsub. unfold encounter_order. apply fmap_submseteq.
  induction projs as [|p projs IH]; [done|].
  rewrite !filter_cons.
  destruct (decide (qualifies _ _ a sel p = true)) as [Hq|Hq].
  - rewrite decide_True; [by apply submseteq_skip|].
    apply qualifies_parts in Hq as (H1 & H2 & H3 & H4).
    unfold qualifies. rewrite H1, H2, H3. simpl.
    by apply (dimension_letter_wider sel).
  - destruct (decide _); [by apply submseteq_cons|done].
Qed.

(** X5: selecting more dimension letters loses no match: if the call returns
    for a selection, it returns for every wider one, and each row of the
    first frame is in the second, as often. *)
Theorem wider_selection_keeps_matches (a : investor) (projs : list project)
    (sel sel' : list string) (out : outcome) :
  (∀ x, x ∈ sel → x ∈ sel') →
  match_projects_to_investor float_of_str str_of_float a projs sel = Ok out →
  ∃ out', match_projects_to_investor float_of_str str_of_float a projs sel' = Ok out'
          ∧ frame out ⊆+ frame out'.
Proof.
  intros Hsub Hout.
  assert (∃ out', match_projects_to_investor float_of_str str_of_float a projs sel'
                  = Ok out') as [out' Hout'].
  { revert Hout. unfold match_projects_to_investor.
    destruct (py_float float_of_str (min_investment_size a)) as [m|e].
    - intros (ms & Hms & _)%bind_ok_inv.
      assert (∃ ms', visit_all float_of_str str_of_float (investor_sector str_of_float a)
                       m (preferred_esg str_of_float a) sel' [] projs = Ok ms')
        as [ms' ->]; [|rewrite bind_ok; eauto].
      apply visit_all_returns_iff.
      assert (Forall (λ p, ∃ ms, visit float_of_str str_of_float
                (investor_sector str_of_float a) m (preferred_esg str_of_float a)
                sel [] p = Ok ms) projs) as Hall
        by (apply (visit_all_returns_iff _ _ _ _ []); eauto).
      eapply Forall_impl; [exact Hall|]. intros p [ms0 Hp].
      by apply (visit_returns_wider _ _ _ sel sel' [] [] p ms0).
    - destruct e; try done. eauto. }
  exists out'. split; [done|].
  apply match_projects_frame in Hout, Hout'. rewrite Hout, Hout'.
  rewrite !(sorted_perm key_lt sort_key). by apply encounter_order_wider.
Qed.

(** X6: the order of the collection matters for ties only: on a rearranged
    collection the call returns if it did, with the same rows as often and
    the same messages. *)
Theorem rearranged_collection (a : investor) (projs projs' : list project)
    (sel : list string) (out : outcome) :
  projs ≡ₚ projs' →
  match_projects_to_investor float_of_str str_of_float a projs sel = Ok out →
  ∃ out', match_projects_to_investor float_of_str str_of_float a projs' sel = Ok out'
          ∧ frame out ≡ₚ frame out'
          ∧ st_errors out = st_errors out'.
Proof.
  intros Hperm Hout.
  assert (∃ out', match_projects_to_investor float_of_str str_of_float a projs' sel
                  = Ok out' ∧ st_errors out = st_errors out') as (out' & Hout' & Herr).
  { revert Hout. unfold match_projects_to_investor.
    destruct (py_float float_of_str (min_investment_size a)) as [m|e].
    - intros (ms & Hms & [= <-])%bind_ok_inv.
      assert (∃ ms', visit_all float_of_str str_of_float (investor_sector str_of_float a)
                       m (preferred_esg str_of_float a) sel [] projs' = Ok ms')
        as [ms' ->]; [|rewrite bind_ok; eauto].
      apply visit_all_returns_iff. rewrite <- Hperm.
      apply (visit_all_returns_iff _ _ _ _ []). eauto.
    - destruct e; try done. intros [= <-]. eauto. }
  exists out'. split; [done|]. split; [|done].
  apply match_projects_frame in Hout, Hout'. rewrite Hout, Hout'.
  rewrite !(sorted_perm key_lt sort_key). unfold encounter_order.
  by rewrite Hperm.
Qed.

(** X7: a blank numeric cell read back as NaN is a minimum that no funding
    reaches: on readable projects the call returns an empty frame and shows
    nothing, blank tag tokens included, since the dimension filter is never
    reached. *)
Theorem nan_minimum_matches_nothing (a : investor) (projs : list project)
    (sel : list string) :
  min_investment_size a = VNum FNaN →
  Forall (readable float_of_str) projs →
  match_projects_to_investor float_of_str str_of_float a projs sel
  = Ok {| st_errors := []; frame := [] |}.
Proof.
  intros Hnan Hall. unfold match_projects_to_investor. rewrite Hnan. cbn [py_float].
  assert (visit_all float_of_str str_of_float (investor_sector str_of_float a) FNaN
            (preferred_esg str_of_float a) sel [] projs = Ok []) as ->; [|done].
  induction Hall as [|p projs [[f Hf] [raw Hraw]] _ IH]; [done|].
  cbn [visit_all]. unfold visit at 1.
  rewrite Hf, Hraw, parse_esg_tags_ok, !bind_ok.
  assert (float_ge f FNaN = false) as -> by (by destruct f).
  rewrite andb_false_r. cbn [andb]. rewrite bind_ok. exact IH.
Qed.

End Returns.

(** ** More on the normaliser *)

Lemma app_String c s t : String c s +:+ t = String c (s +:+ t).
Proof. reflexivity. Qed.

Lemma app_empty t : EmptyString +:+ t = t.
Proof. reflexivity. Qed.

Lemma remove_pair_head a b c t :
  c ≠ a → remove_pair a b (String c t) = String c (remove_pair a b t).
Proof.
  intros Hc. destruct t as [|d t]; [done|].
  rewrite remove_pair_two, decide_False; [done|]. by intros [? _].
Qed.

(** A character that is in neither half of the pair cuts the removal in
    two. *)
Lemma remove_pair_cut a b c s t :
  c ≠ a → c ≠ b →
  remove_pair a b (s +:+ String c t) = remove_pair a b s +:+ String c (remove_pair a b t)
  ∧ ∀ e, remove_pair a b (String e s +:+ String c t)
         = remove_pair a b (String e s) +:+ String c (remove_pair a b t).
Proof.
  intros Ha Hb. induction s as [|d s [IH1 IH2]].
  - split; [by rewrite !app_empty, remove_pair_head|].
    intros e. rewrite app_String, app_empty, remove_pair_two.
    rewrite decide_False by (intros [_ ?]; congruence).
    by rewrite remove_pair_head.
  - split; [apply IH2|]. intros e.
    rewrite !app_String, !remove_pair_two.
    destruct (decide (e = a ∧ d = b)); [done|].
    rewrite app_String. f_equal. rewrite <- app_String. apply IH2.
Qed.

Lemma split_cut sep s t :
  Py.split sep (s +:+ String sep t) = Py.split sep s ++ Py.split sep t.
Proof.
  induction s as [|c s IH].
  - rewrite app_empty. simpl. by rewrite decide_True.
  - rewrite app_String. simpl. destruct (decide (c = sep)); [by rewrite IH|].
    rewrite IH. pose proof (split_not_nil sep s).
    by destruct (Py.split sep s).
Qed.

Lemma parse_esg_tags_str_cut s t :
  parse_esg_tags_str (s +:+ String "," t)
  = parse_esg_tags_str s ∪ parse_esg_tags_str t.
Proof.
  rewrite !parse_esg_tags_str_spec. unfold normalised_tags.
  rewrite (proj1 (remove_pair_cut "E" ":" "," s t ltac:(done) ltac:(done))).
  rewrite (proj1 (remove_pair_cut "S" ":" "," _ _ ltac:(done) ltac:(done))).
  rewrite (proj1 (remove_pair_cut "G" ":" "," _ _ ltac:(done) ltac:(done))).
  rewrite split_cut, !fmap_app. apply list_to_set_app_L.
Qed.

(** X8: the tags of a text made of two texts with a comma between them are
    the tags of the one and of the other: the normaliser works tag by tag,
    and neither the order of the tags nor a repetition changes the set. *)
Theorem parse_esg_tags_comma (s t : string) (tags_s tags_t : gset string) :
  parse_esg_tags (VStr s) = Ok tags_s →
  parse_esg_tags (VStr t) = Ok tags_t →
  parse_esg_tags (VStr (s +:+ "," +:+ t)) = Ok (tags_s ∪ tags_t)
  ∧ parse_esg_tags (VStr (t +:+ "," +:+ s)) = Ok (tags_s ∪ tags_t)
  ∧ parse_esg_tags (VStr (s +:+ "," +:+ s)) = Ok tags_s.
Proof.
  rewrite !parse_esg_tags_ok. intros [= <-] [= <-].
  change ("," +:+ ?x) with (String "," x). rewrite !parse_esg_tags_str_cut.
  split; [done|]. split; f_equal; [apply (comm_L (∪))|apply (idemp_L (∪))].
Qed.

Lemma parse_esg_tags_comma_witness :
  parse_esg_tags (VStr ("E:green, S:Jobs" +:+ "," +:+ "jobs,G:board"))
  = Ok ({[ "green"; "jobs" ]} ∪ {[ "jobs"; "board" ]}).
Proof.
  apply (parse_esg_tags_comma "E:green, S:Jobs" "jobs,G:board"); by vm_compute.
Defined.

Lemma split_length sep s : length (Py.split sep s) = S (Py.count_char sep s).
Proof.
  induction s as [|c s IH]; simpl; [done|].
  destruct (decide (c = sep)) as [->|Hne].
  - rewrite decide_True by done. simpl. by rewrite IH.
  - rewrite decide_False by congruence. simpl. rewrite <- IH.
    pose proof (split_not_nil sep s). by destruct (Py.split sep s).
Qed.

Lemma count_char_remove_pair a b c s :
  c ≠ a → c ≠ b →
  Py.count_char c (remove_pair a b s) = Py.count_char c s
  ∧ ∀ e, Py.count_char c (remove_pair a b (String e s)) = Py.count_char c (String e s).
Proof.
  intros Ha Hb. induction s as [|d s [IH1 IH2]].
  - split; done.
  - split; [apply IH2|]. intros e. rewrite remove_pair_two.
    destruct (decide (e = a ∧ d = b)) as [[-> ->]|_].
    + rewrite IH1. simpl. by rewrite !decide_False.
    + change (Py.count_char c (String e ?x))
        with ((if decide (c = e) then 1 else 0) + Py.count_char c x)%nat.
      by rewrite IH2.
Qed.

Lemma list_to_set_size (l : list string) :
  (size (list_to_set l : gset string) ≤ length l)%nat.
Proof.
  induction l as [|x l IH]; [done|]. cbn [list_to_set length].
  rewrite size_union_alt, size_singleton.
  pose proof (subseteq_size (list_to_set l ∖ {[x]}) (list_to_set l : gset string)
                (subseteq_difference_l _ _ _ (reflexivity _))).
  lia.
Qed.

(** X9: the normaliser returns at least one token and at most one more than
    the text has commas. *)
Theorem parse_esg_tags_size (s : string) (tags : gset string) :
  parse_esg_tags (VStr s) = Ok tags →
  (1 ≤ size tags ≤ S (Py.count_char "," s))%nat.
Proof.
  rewrite parse_esg_tags_ok. intros [= <-]. split.
  - unfold parse_esg_tags_str.
    pose proof (split_not_nil ","
      (Py.replace "G:" "" (Py.replace "S:" "" (Py.replace "E:" "" s)))) as Hs.
    destruct (Py.split _ _) as [|u us]; [done|]. clear Hs.
    set (X := list_to_set _ : gset string).
    assert (Py.lower (Py.strip u) ∈ X) as Hin by (apply elem_of_list_to_set; left).
    destruct (size X) eqn:E; [|lia].
    apply size_empty_iff in E. by apply (proj1 (elem_of_equiv_empty X) E) in Hin.
  - rewrite parse_esg_tags_str_spec. unfold normalised_tags.
    etrans; [apply list_to_set_size|].
    rewrite !length_fmap, split_length.
    rewrite (proj1 (count_char_remove_pair "G" ":" "," _ ltac:(done) ltac:(done))).
    rewrite (proj1 (count_char_remove_pair "S" ":" "," _ ltac:(done) ltac:(done))).
    by rewrite (proj1 (count_char_remove_pair "E" ":" "," _ ltac:(done) ltac:(done))).
Qed.

Lemma parse_esg_tags_size_witness :
  (1 ≤ size ({[ "green"; "jobs"; "" ]} : gset string) ≤ S (Py.count_char "," "E:green,S:jobs,,green"))%nat.
Proof.
  apply (parse_esg_tags_size "E:green,S:jobs,,green"). by vm_compute.
Defined.

Lemma parse_esg_tags_str_trimmed s t :
  t ∈ parse_esg_tags_str s → Py.strip t = t ∧ Py.lower t = t.
Proof.
  unfold parse_esg_tags_str.
  rewrite elem_of_list_to_set, list_elem_of_fmap. intros (u & -> & _). split.
  - by rewrite strip_lower, strip_idem.
  - apply lower_idem.
Qed.

(** X10: every token that the normaliser returns is trimmed, lowercase and
    without a comma. *)
Theorem parse_esg_tags_tokens (tags_text : value) (tags : gset string) (t : string) :
  parse_esg_tags tags_text = Ok tags →
  t ∈ tags →
  Py.strip t = t ∧ Py.lower t = t ∧ Py.has_char "," t = false.
Proof.
  destruct tags_text as [s| |]; try done.
  rewrite parse_esg_tags_ok. intros [= <-] Ht.
  destruct (parse_esg_tags_str_trimmed s t Ht) as [H1 H2].
  by apply parse_esg_tags_str_normal in Ht as (? & _).
Qed.

Lemma parse_esg_tags_tokens_witness :
  Py.strip "jobs" = "jobs" ∧ Py.lower "jobs" = "jobs" ∧ Py.has_char "," "jobs" = false.
Proof.
  apply (parse_esg_tags_tokens (VStr " E:Green, S:JOBS ") {[ "green"; "jobs" ]});
    by vm_compute.
Defined.

(** X11: the investor's criteria are split and lowercased but not trimmed, while
    the project's tags are: a criterion written with a blank before or
    after it, as in "green, solar", is matched by no tag and never counts
    in a score. *)
Theorem untrimmed_criterion_never_counts (str_of_float : pyfloat → string)
    (a : investor) (p : project) (tags : gset string) (t : string) :
  parse_esg_tags (esg_tags p) = Ok tags →
  t ∈ preferred_esg str_of_float a →
  Py.strip t ≠ t →
  (t ∉ tags) ∧ (esg_score_of str_of_float a p < size (preferred_esg str_of_float a))%nat.
Proof.
  intros Htags Ht Hblank.
  assert (t ∉ tags) as Hnot.
  { destruct (esg_tags p) as [s| |]; try done.
    rewrite parse_esg_tags_ok in Htags. injection Htags as <-.
    by intros [? _]%parse_esg_tags_str_trimmed. }
  split; [done|]. unfold esg_score_of. rewrite Htags.
  apply subset_size. split; [apply intersection_subseteq_l|].
  intros Hsub. apply Hnot. specialize (Hsub t Ht).
  by apply elem_of_intersection in Hsub as [_ ?].
Qed.

Lemma untrimmed_criterion_never_counts_witness :
  (" solar" ∉ ({[ "solar" ]} : gset string))
  ∧ (esg_score_of Demo.str_of_float
       {| sector_focus := VStr "energy"; min_investment_size := Demo.num 10000;
          preferred_esg_criteria := VStr "green, solar" |} Demo.project_B
     < size (preferred_esg Demo.str_of_float
               {| sector_focus := VStr "energy"; min_investment_size := Demo.num 10000;
                  preferred_esg_criteria := VStr "green, solar" |}))%nat.
Proof.
  apply (untrimmed_criterion_never_counts Demo.str_of_float _ Demo.project_B).
  - by vm_compute.
  - by vm_compute.
  - by vm_compute.
Defined.

(** *** Closed instances *)

Lemma frame_rows_sound_witness :
  Py.lower (py_str Demo.str_of_float (Sector Demo.row_D))
  = investor_sector Demo.str_of_float Demo.investor_1
  ∧ (∃ m, py_float Demo.float_of_str (min_investment_size Demo.investor_1) = Ok m
          ∧ float_ge (Funding_Needed Demo.row_D) m = true)
  ∧ (1 ≤ ESG_Score Demo.row_D ≤ size (preferred_esg Demo.str_of_float Demo.investor_1))%nat.
Proof.
  apply (frame_rows_sound Demo.float_of_str Demo.str_of_float Demo.investor_1
           [Demo.project_A; Demo.project_B; Demo.project_C; Demo.project_D]
           ["E"; "S"; "G"]
           {| st_errors := []; frame := [Demo.row_D; Demo.row_A; Demo.row_C] |}).
  - by vm_compute.
  - apply list_elem_of_here.
Defined.

Lemma frame_length_witness :
  (length [Demo.row_D; Demo.row_A; Demo.row_C]
   ≤ length [Demo.project_A; Demo.project_B; Demo.project_C; Demo.project_D])%nat.
Proof.
  apply (frame_length Demo.float_of_str Demo.str_of_float Demo.investor_1
           [Demo.project_A; Demo.project_B; Demo.project_C; Demo.project_D]
           ["E"; "S"; "G"]
           {| st_errors := []; frame := [Demo.row_D; Demo.row_A; Demo.row_C] |}).
  by vm_compute.
Defined.

Lemma empty_selection_empty_frame_witness :
  frame {| st_errors := []; frame := [] |} = [].
Proof.
  apply (empty_selection_empty_frame Demo.float_of_str Demo.str_of_float
           Demo.investor_1 [Demo.project_A; Demo.project_B]).
  by vm_compute.
Defined.

Lemma error_shown_iff_witness :
  Demo.run Demo.investor_text [Demo.project_N; Demo.project_T] ["E"]
  = Ok {| st_errors := [invalid_min_investment]; frame := [] |}.
Proof.
  apply (error_shown_iff Demo.float_of_str Demo.str_of_float Demo.investor_text
           [Demo.project_N; Demo.project_T] ["E"]).
  by vm_compute.
Defined.

Lemma wider_selection_keeps_matches_witness :
  ∃ out', Demo.run Demo.investor_1 [Demo.project_A; Demo.project_B] ["S"; "E"] = Ok out'
          ∧ [Demo.row_A] ⊆+ frame out'.
Proof.
  apply (wider_selection_keeps_matches Demo.float_of_str Demo.str_of_float
           Demo.investor_1 [Demo.project_A; Demo.project_B] ["S"] ["S"; "E"]
           {| st_errors := []; frame := [Demo.row_A] |}).
  - intros x ->%list_elem_of_singleton. apply list_elem_of_here.
  - by vm_compute.
Defined.

Lemma rearranged_collection_witness :
  ∃ out', Demo.run Demo.investor_1 [Demo.project_B; Demo.project_A] ["E"] = Ok out'
          ∧ [Demo.row_A] ≡ₚ frame out'
          ∧ [] = st_errors out'.
Proof.
  apply (rearranged_collection Demo.float_of_str Demo.str_of_float Demo.investor_1
           [Demo.project_A; Demo.project_B] [Demo.project_B; Demo.project_A] ["E"]
           {| st_errors := []; frame := [Demo.row_A] |}).
  - apply Permutation_swap.
  - by vm_compute.
Defined.

Lemma nan_minimum_matches_nothing_witness :
  Demo.run {| sector_focus := VStr "energy"; min_investment_size := VNum FNaN;
              preferred_esg_criteria := VStr "renewable" |}
    [Demo.project_T; Demo.project_A] ["E"; "S"; "G"]
  = Ok {| st_errors := []; frame := [] |}.
Proof.
  apply (nan_minimum_matches_nothing Demo.float_of_str Demo.str_of_float).
  - reflexivity.
  - repeat constructor; by eexists.
Defined.

(** ** The explorer and the matcher *)

Lemma has_char_of_strip c t : Py.has_char c (Py.strip t) = true → Py.has_char c t = true.
Proof.
  intros H. destruct (Py.has_char c t) eqn:E; [done|].
  by rewrite (has_char_strip c t E) in H.
Qed.

Lemma has_char_of_field sep f s c :
  f ∈ Py.split sep s → Py.has_char c f = true → Py.has_char c s = true.
Proof.
  revert f. induction s as [|d s IH]; intros f; simpl.
  - by intros ->%list_elem_of_singleton.
  - destruct (decide (d = sep)) as [->|Hne].
    + intros [->|Hf]%elem_of_cons Hc; [done|].
      rewrite (IH f Hf Hc). apply orb_true_r.
    + pose proof (split_not_nil sep s) as Hnil.
      destruct (Py.split sep s) as [|g gs]; [done|].
      intros [->|Hf]%elem_of_cons Hc.
      * simpl in Hc. apply orb_prop in Hc as [Hc|Hc]; [by rewrite Hc|].
        rewrite (IH g (list_elem_of_here _ _) Hc). apply orb_true_r.
      * rewrite (IH f (list_elem_of_further _ _ _ Hf) Hc). apply orb_true_r.
Qed.

Lemma any_char_has f c s :
  Py.has_char c s = true → f c = true → Py.any_char f s = true.
Proof.
  intros Hc Hf. induction s as [|d s IH]; [done|]. simpl in *.
  apply orb_prop in Hc as [->%bool_decide_eq_true|Hc].
  - by rewrite Hf.
  - rewrite IH by done. apply orb_true_r.
Qed.

Lemma upper_is_letter c d :
  Py.upper_char c = Explore.letter d →
  Py.lower_char c = Py.lower_char (Explore.letter d).
Proof. destruct d; each_char c; vm_compute; congruence. Qed.

(** X15: a project that passes the matcher's dimension filter for a selection
    of letters passes the explorer's tag filter for the same selection: the
    letter that the matcher finds at the head of a token is a letter that
    the explorer finds somewhere in the text. *)
Theorem matcher_filter_implies_explorer (selected : list Explore.dimension)
    (p : project) (raw : string) :
  esg_tags p = VStr raw →
  dimension_letter (Explore.as_selected_tags selected) p = true →
  Explore.contains selected raw = true.
Proof.
  intros Hraw. unfold dimension_letter. rewrite Hraw, existsb_elem.
  intros (t & Ht & Hlead). rewrite leads_with_selected_strip in Hlead.
  destruct (Py.strip t) as [|c r] eqn:Hstrip; [done|].
  apply bool_decide_eq_true in Hlead.
  apply list_elem_of_fmap in Hlead as (d & Hd & Hin).
  injection Hd as Hd. apply upper_is_letter in Hd.
  unfold Explore.contains. destruct selected as [|d0 ds]; [done|].
  apply (any_char_has _ c).
  - apply (has_char_of_field "," t); [done|]. apply has_char_of_strip.
    rewrite Hstrip. simpl. by rewrite bool_decide_eq_true_2.
  - apply bool_decide_eq_true. apply list_elem_of_fmap. eauto.
Qed.

Lemma matcher_filter_implies_explorer_witness :
  Explore.contains [Explore.Dim_S] "E:green, s:jobs" = true.
Proof.
  apply (matcher_filter_implies_explorer [Explore.Dim_S]
           {| name := VStr "A"; sector := VStr "energy"; funding_needed := VNone;
              esg_tags := VStr "E:green, s:jobs"; readiness_level := None |});
    by vm_compute.
Defined.

(** The converse fails: the explorer finds the letter anywhere. *)
Example explorer_is_wider :
  Explore.contains [Explore.Dim_E] "S:shelter" = true
  ∧ dimension_letter (Explore.as_selected_tags [Explore.Dim_E])
      {| name := VStr "H"; sector := VStr "housing"; funding_needed := VNone;
         esg_tags := VStr "S:shelter"; readiness_level := None |} = false.
Proof. by vm_compute. Qed.

(** ** More on ranking and on failures *)

Section RankingFacts.
Context (float_of_str : string → option pyfloat) (str_of_float : pyfloat → string).

Lemma frame_ranked a projs sel out :
  match_projects_to_investor float_of_str str_of_float a projs sel = Ok out →
  StronglySorted ranked_before (frame out).
Proof.
  intros Hout%match_projects_frame. rewrite Hout.
  apply (StronglySorted_among (not_after key_lt sort_key) _
           (λ r, ordered (Funding_Needed r))).
  - intros x y. apply not_after_ranked.
  - rewrite (sorted_perm key_lt sort_key). apply encounter_order_ordered.
  - apply (sorted_ok key_lt sort_key (λ k, ordered k.2)).
    + apply key_lt_asym.
    + intros k1 k2 k3. apply key_le_trans.
    + apply encounter_order_ordered.
Qed.

Lemma float_ge_refl x : ordered x → float_ge x x = true.
Proof.
  destruct x as [| |q|]; try done. intros _. unfold float_ge; cbn [fcompare].
  by rewrite (proj1 (Qeq_alt q q) (Qeq_refl q)).
Qed.

(** X16: the first row of the frame is the best match: no project that
    qualifies has a higher score, and none of the same score needs less
    funding. *)
Theorem best_match_first (a : investor) (projs : list project) (sel : list string)
    (out : outcome) (r : match_row) (rest : list match_row) (p : project) :
  match_projects_to_investor float_of_str str_of_float a projs sel = Ok out →
  frame out = r :: rest →
  p ∈ projs →
  qualifies float_of_str str_of_float a sel p = true →
  (ESG_Score (row_of float_of_str str_of_float a p) ≤ ESG_Score r)%nat
  ∧ (ESG_Score (row_of float_of_str str_of_float a p) = ESG_Score r →
     float_le (Funding_Needed r)
              (Funding_Needed (row_of float_of_str str_of_float a p))).
Proof.
  intros Hout Hframe Hp Hq.
  assert (ranked_before r (row_of float_of_str str_of_float a p)) as Hrank.
  { assert (row_of float_of_str str_of_float a p ∈ frame out) as Hin.
    { apply (frame_elem float_of_str str_of_float a projs sel out); [done|].
      apply encounter_order_elem. eauto. }
    assert (ordered (Funding_Needed r)) as Hr.
    { pose proof (encounter_order_ordered float_of_str str_of_float a sel projs) as Ho.
      rewrite Forall_forall in Ho. apply (Ho r).
      apply (frame_elem float_of_str str_of_float a projs sel out); [done|]. rewrite Hframe. left. }
    pose proof (frame_ranked a projs sel out Hout) as Hs.
    rewrite Hframe in Hs, Hin. inversion Hs as [|? ? _ Hall]; subst.
    apply elem_of_cons in Hin as [->|Hin].
    - right. split; [done|]. by apply float_ge_refl.
    - rewrite Forall_forall in Hall. by apply Hall. }
  destruct Hrank as [Hlt|[Heq Hle]]; split; try lia; try done.
Qed.

Lemma visit_all_raises_at isec m pref sel acc projs p :
  (∀ acc', ∃ e, visit float_of_str str_of_float isec m pref sel acc' p = Raise e) →
  p ∈ projs →
  ∃ e', visit_all float_of_str str_of_float isec m pref sel acc projs = Raise e'.
Proof.
  intros Hp Hin. revert acc.
  induction Hin as [p projs|p q projs _ IH]; intros acc; simpl.
  - destruct (Hp acc) as [e ->]. eauto.
  - destruct (visit _ _ _ _ _ _ _ q) as [mid|e1]; [|by eauto].
    rewrite bind_ok. by apply IH.
Qed.

(** X17: one project whose tag cell is no text (a blank cell of the table)
    makes the call raise for every investor whose minimum converts, whatever
    the sector and the funding of that project: its tags are parsed before
    any condition is tested.  Reached with a funding that converts, it
    raises [AttributeError]. *)
Theorem missing_tags_raise (a : investor) (projs : list project) (sel : list string)
    (m : pyfloat) (p : project) :
  py_float float_of_str (min_investment_size a) = Ok m →
  p ∈ projs →
  (∀ raw, esg_tags p ≠ VStr raw) →
  (∃ e, match_projects_to_investor float_of_str str_of_float a projs sel = Raise e)
  ∧ ∀ before after ms f,
      projs = before ++ p :: after →
      visit_all float_of_str str_of_float (investor_sector str_of_float a) m
        (preferred_esg str_of_float a) sel [] before = Ok ms →
      py_float float_of_str (funding_needed p) = Ok f →
      match_projects_to_investor float_of_str str_of_float a projs sel
      = Raise AttributeError.
Proof.
  intros Hm Hin Htags.
  assert (parse_esg_tags (esg_tags p) = Raise AttributeError) as Hparse
    by (destruct (esg_tags p) as [raw| |]; [by destruct (Htags raw)|done..]).
  unfold match_projects_to_investor. rewrite Hm. split.
  - destruct (visit_all_raises_at (investor_sector str_of_float a) m
                (preferred_esg str_of_float a) sel [] projs p) as [e ->]; [|done|eauto].
    intros acc. unfold visit.
    destruct (py_float float_of_str (funding_needed p)); [|by eauto].
    rewrite bind_ok, Hparse. eauto.
  - intros before after ms f -> Hbefore Hf.
    rewrite visit_all_app, Hbefore, bind_ok. simpl. unfold visit at 1.
    by rewrite Hf, bind_ok, Hparse.
Qed.

End RankingFacts.

Lemma best_match_first_witness :
  (ESG_Score (row_of Demo.float_of_str Demo.str_of_float Demo.investor_1 Demo.project_C)
   ≤ ESG_Score Demo.row_D)%nat.
Proof.
  apply (best_match_first Demo.float_of_str Demo.str_of_float Demo.investor_1
           [Demo.project_A; Demo.project_B; Demo.project_C; Demo.project_D]
           ["E"; "S"; "G"]
           {| st_errors := []; frame := [Demo.row_D; Demo.row_A; Demo.row_C] |}
           Demo.row_D [Demo.row_A; Demo.row_C] Demo.project_C).
  - by vm_compute.
  - reflexivity.
  - do 2 apply list_elem_of_further. apply list_elem_of_here.
  - by vm_compute.
Defined.

Lemma missing_tags_raise_witness :
  Demo.run Demo.investor_1
    [Demo.project_A;
     {| name := VStr "M"; sector := VStr "water"; funding_needed := Demo.num 1;
        esg_tags := VNone; readiness_level := None |}] ["E"]
  = Raise AttributeError.
Proof.
  destruct (missing_tags_raise Demo.float_of_str Demo.str_of_float Demo.investor_1
              [Demo.project_A;
               {| name := VStr "M"; sector := VStr "water"; funding_needed := Demo.num 1;
                  esg_tags := VNone; readiness_level := None |}] ["E"]
              (FFin (inject_Z 10000))
              {| name := VStr "M"; sector := VStr "water"; funding_needed := Demo.num 1;
                 esg_tags := VNone; readiness_level := None |}) as [_ Hexact].
  - reflexivity.
  - apply list_elem_of_further, list_elem_of_here.
  - done.
  - apply (Hexact [Demo.project_A] [] [Demo.row_A] (FFin (inject_Z 1)));
      [reflexivity|by vm_compute|reflexivity].
Defined.
